(** * stream2sentence: sentence fragments from a character stream

    A shallow embedding of [stream2sentence/stream2sentence.py]: the Python
    string primitives the module relies on, the boundary heuristic
    [_is_likely_sentence_boundary], the tokenizer adapter
    [_tokenize_sentences] and the generator [generate_sentences_async],
    followed by the properties proved about them. *)

From Stdlib Require Import Ascii String.
From Stdlib Require Import ZArith NArith List Bool Lia.
Import ListNotations.

Local Open Scope Z_scope.

(** ** Python values *)

(** A Python [str] is a sequence of Unicode code points. *)
Definition char := N.
Definition str := list char.

(** ASCII literals, for readable constants and examples. *)
Fixpoint of_string (s : string) : str :=
  match s with
  | EmptyString => []
  | String a s' => N_of_ascii a :: of_string s'
  end.

Definition len {A} (s : list A) : Z := Z.of_nat (length s).

Definition char_in (c : char) (s : str) : bool := existsb (N.eqb c) s.

Fixpoint str_eqb (a b : str) : bool :=
  match a, b with
  | [], [] => true
  | x :: a', y :: b' => N.eqb x y && str_eqb a' b'
  | _, _ => false
  end.

(** Exceptions a modelled operation can raise. *)
Inductive exn := IndexError | ValueError | OverflowError | ImportError | RuntimeError.

Inductive result (A : Type) :=
| Ok (a : A)
| Raise (e : exn).
Arguments Ok {A} a.
Arguments Raise {A} e.

Definition bind {A B} (m : result A) (k : A -> result B) : result B :=
  match m with
  | Ok a => k a
  | Raise e => Raise e
  end.

Notation "x <- m ;; k" := (bind m (fun x => k))
  (at level 100, m at next level, right associativity).

(** *** Whitespace

    [str.isspace], [str.strip], [str.lstrip] and [str.split] without
    arguments all use the same per-character test; these are the code points
    for which it holds. *)
Definition isspace (c : char) : bool :=
  ((9 <=? c) && (c <=? 13) || (28 <=? c) && (c <=? 32)
   || (c =? 133) || (c =? 160) || (c =? 5760)
   || (8192 <=? c) && (c <=? 8202)
   || (c =? 8232) || (c =? 8233) || (c =? 8239) || (c =? 8287)
   || (c =? 12288))%N.

Fixpoint dropwhile {A} (p : A -> bool) (s : list A) : list A :=
  match s with
  | [] => []
  | c :: s' => if p c then dropwhile p s' else s
  end.

Fixpoint takewhile {A} (p : A -> bool) (s : list A) : list A :=
  match s with
  | [] => []
  | c :: s' => if p c then c :: takewhile p s' else []
  end.

Definition lstrip (s : str) : str := dropwhile isspace s.
Definition rstrip (s : str) : str := rev (dropwhile isspace (rev s)).
Definition strip (s : str) : str := lstrip (rstrip s).

(** [s.split()]: maximal runs of non-whitespace characters. [cur] is the
    word being read. *)
Fixpoint split_from (cur : str) (s : str) : list str :=
  match s with
  | [] => match cur with [] => [] | _ => [cur] end
  | c :: s' =>
      if isspace c
      then match cur with [] => split_from [] s' | _ => cur :: split_from [] s' end
      else split_from (cur ++ [c]) s'
  end.

Definition split (s : str) : list str := split_from [] s.

(** [s.split(sep)] for a one-character separator: empty pieces are kept. *)
Fixpoint split_on_from (sep : char) (cur : str) (s : str) : list str :=
  match s with
  | [] => [cur]
  | c :: s' =>
      if N.eqb c sep then cur :: split_on_from sep [] s'
      else split_on_from sep (cur ++ [c]) s'
  end.

Definition split_on (sep : char) (s : str) : list str := split_on_from sep [] s.

(** [s.replace(a, b)] for one-character [a] and [b]. *)
Definition replace (a b : char) (s : str) : str :=
  map (fun c => if N.eqb c a then b else c) s.

(** *** Indexing and slicing

    A negative index counts from the end; an index outside the sequence
    raises [IndexError]. Slice bounds are clamped instead. *)
Definition py_index {A} (s : list A) (i : Z) : result A :=
  let j := if i <? 0 then len s + i else i in
  if (j <? 0) || (len s <=? j) then Raise IndexError
  else match nth_error s (Z.to_nat j) with
       | Some a => Ok a
       | None => Raise IndexError
       end.

Definition clamp {A} (s : list A) (i : Z) : nat :=
  if i <? 0 then Z.to_nat (Z.max 0 (len s + i))
  else Nat.min (length s) (Z.to_nat i).

(** [s[:i]], [s[i:]] and [s[i:j]]. *)
Definition slice_to {A} (s : list A) (i : Z) : list A := firstn (clamp s i) s.
Definition slice_from {A} (s : list A) (i : Z) : list A := skipn (clamp s i) s.
Definition slice {A} (s : list A) (i j : Z) : list A :=
  firstn (clamp s j - clamp s i) (skipn (clamp s i) s).

(** *** What the module imports

    The Unicode tables behind [str.isalpha] and [str.isalnum],
    [emoji.replace_emoji] with an empty replacement, and the two float
    products of the throttling code, [int(n * 0.6)] and [int(n * 1.0)],
    which raise [OverflowError] on an integer too large for a float. *)
Class PyLib := {
  isalpha : char -> bool;
  isalnum : char -> bool;
  replace_emoji : str -> str;
  int_mul_weak_pause_ratio : Z -> result Z;
  int_mul_strong_pause_ratio : Z -> result Z
}.

(** ** Character constants and delimiter sets *)

Definition COMMA : char := 44%N.
Definition PERIOD : char := 46%N.
Definition SPACE : char := 32%N.
Definition NEWLINE : char := 10%N.
Definition HYPHEN : char := 45%N.
Definition UNDERSCORE : char := 95%N.

(** Double and single quote, round, square and curly brackets, the two
    guillemets (U+00AB, U+00BB), carriage return and space. *)
Definition IGNORED_DELIMITERS : str :=
  [34; 39; 40; 41; 91; 93; 123; 125; 171; 187; 13; 32]%N.

Section Lib.
Context {L : PyLib}.

(** ** Helpers *)

Definition _remove_emojis (text : str) : str := replace_emoji text.

Definition _clean_text (text : str) (cleanup_text_emojis : bool) : str :=
  let text := if cleanup_text_emojis then _remove_emojis text else text in
  strip text.

(** ** The boundary heuristic *)

Definition is_word_char (c : char) : bool :=
  isalpha c || char_in c [HYPHEN; UNDERSCORE].

(** The [while] loop that looks for the start of the word before a period.
    [n] is [word_start + 1] at the loop head; the result is [word_start]
    when the loop exits. *)
Fixpoint scan_word_start (text : str) (n : nat) : Z :=
  match n with
  | O => -1
  | S k =>
      if is_word_char (nth k text 0%N) then scan_word_start text k
      else Z.of_nat k
  end.

Definition _is_likely_sentence_boundary (text : str) (delimiter_pos : Z)
  : result bool :=
  if delimiter_pos <? 1 then Ok false
  else
    delimiter_char <- py_index text delimiter_pos ;;
    if N.eqb delimiter_char COMMA then
      let fragment_before := strip (slice_to text delimiter_pos) in
      if len fragment_before <? 4 then Ok false
      else
        let words := split fragment_before in
        match words with
        | [] => Ok true
        | _ :: _ =>
            last_word <- py_index words (-1) ;;
            if len last_word <=? 3 then Ok false else Ok true
        end
    else if N.eqb delimiter_char PERIOD then
      let word_start := scan_word_start text (Z.to_nat delimiter_pos) in
      let word_before_dot := slice text (word_start + 1) delimiter_pos in
      if len word_before_dot <=? 2 then
        if delimiter_pos + 1 <? len text then
          next <- py_index text (delimiter_pos + 1) ;;
          if isalnum next || N.eqb next PERIOD then Ok false else Ok true
        else Ok true
      else Ok true
    else Ok true.

(** ** The tokenizer adapter *)

(** A tokenizer takes a text and returns its sentences, or raises. *)
Definition tokenizer_fn := str -> result (list str).

(** The two backends as initialisation left them: whether [import nltk] and
    [import stanza] succeed, [nltk.tokenize.sent_tokenize] for Russian, and
    the global [nlp] (the Stanza pipeline, read as the texts of
    [doc.sentences]), which is [None] until Stanza has been initialised. *)
Record Backends := {
  import_nltk : result unit;
  sent_tokenize : tokenizer_fn;
  import_stanza : result unit;
  nlp : option tokenizer_fn
}.

(** How the code that obtains [sentences] ends: it falls through to the
    post-pass, returns early, or raises. *)
Inductive flow :=
| Sentences (sentences : list str)
| Return (value : list str)
| Raised (e : exn).

Definition call (f : tokenizer_fn) (text : str) : flow :=
  match f text with
  | Ok l => Sentences l
  | Raise e => Raised e
  end.

(** The dispatch on the global [current_tokenizer]. *)
Definition backend_sentences (B : Backends) (current_tokenizer : str)
  (text : str) : flow :=
  if str_eqb current_tokenizer (of_string "nltk") then
    match import_nltk B with
    | Raise e => Raised e
    | Ok _ => call (sent_tokenize B) text
    end
  else if str_eqb current_tokenizer (of_string "stanza") then
    match import_stanza B with
    | Raise e => Raised e
    | Ok _ =>
        match nlp B with
        | None => Return [text]
        | Some pipeline => call pipeline text
        end
    end
  else Raised ValueError.

Definition nonempty {A} (l : list A) : bool :=
  match l with [] => false | _ => true end.

(** The loop that joins short sentences; returns [combined_sentences] and
    [temp_sentence] as the loop leaves them. *)
Fixpoint combine_loop (sentences combined_sentences : list str)
  (temp_sentence : str) : list str * str :=
  match sentences with
  | [] => (combined_sentences, temp_sentence)
  | sentence :: rest =>
      if len sentence <? 10 then
        combine_loop rest combined_sentences (temp_sentence ++ sentence ++ [SPACE])
      else if nonempty temp_sentence then
        combine_loop rest
          (combined_sentences ++ [strip (temp_sentence ++ sentence)]) []
      else
        combine_loop rest (combined_sentences ++ [strip sentence]) temp_sentence
  end.

Definition combine_short (sentences : list str) : list str :=
  let '(combined_sentences, temp_sentence) := combine_loop sentences [] [] in
  if nonempty temp_sentence then combined_sentences ++ [strip temp_sentence]
  else combined_sentences.

(** The short-sentence post-pass: the merged list, or the raw one. *)
Definition short_sentence_pass (sentences : list str) : list str :=
  let combined_sentences := combine_short sentences in
  if nonempty combined_sentences && (len combined_sentences <? len sentences)
  then combined_sentences else sentences.

(** The text as the handlers see it, and how obtaining the sentences ends.
    Only the poetic branch without line breaks rebinds [text]. *)
Definition obtain_sentences (B : Backends) (current_tokenizer : str)
  (text : str) (tokenize_sentences : option tokenizer_fn)
  (poetic_mode preserve_line_breaks : bool) : str * flow :=
  match tokenize_sentences with
  | Some f => (text, call f text)
  | None =>
      if poetic_mode then
        if preserve_line_breaks then
          let lines := split_on NEWLINE text in
          (text, Sentences (filter (fun line => nonempty (strip line)) lines))
        else
          let text := replace NEWLINE SPACE text in
          (text, backend_sentences B current_tokenizer text)
      else (text, backend_sentences B current_tokenizer text)
  end.

Definition _tokenize_sentences (B : Backends) (current_tokenizer : str)
  (text : str) (tokenize_sentences : option tokenizer_fn)
  (poetic_mode preserve_line_breaks : bool) : result (list str) :=
  let '(text, fl) :=
    obtain_sentences B current_tokenizer text tokenize_sentences
      poetic_mode preserve_line_breaks in
  match fl with
  | Raised _ => Ok [text]
  | Return value => Ok value
  | Sentences sentences =>
      let result := short_sentence_pass sentences in
      Ok (if nonempty result then result else [text])
  end.

(** ** The generator *)

Record config := {
  context_size : Z;
  context_size_look_overhead : Z;
  minimum_sentence_length : Z;
  minimum_first_fragment_length : Z;
  quick_yield_single_sentence_fragment : bool;
  quick_yield_for_all_sentences : bool;
  quick_yield_every_fragment : bool;
  cleanup_text_emojis : bool;
  tokenize_sentences : option tokenizer_fn;
  tokenizer : str;
  filter_first_non_alnum_characters : bool;
  force_first_fragment_after_words : Z;
  poetic_mode : bool;
  preserve_line_breaks : bool;
  max_buffer_size : Z;
  tokenization_interval : Z;
  strict_punctuation_mode : bool;
  min_chars_after_delimiter : Z;
  sentence_fragment_delimiters : str;
  full_sentence_delimiters : str
}.

Record state := {
  buffer : str;
  is_first_sentence : bool;
  word_count : Z;
  last_delimiter_position : Z;
  fragment_count : Z;
  tokenization_counter : Z;
  chars_since_last_strong_delim : Z
}.

Definition initial : state :=
  {| buffer := []; is_first_sentence := true; word_count := 0;
     last_delimiter_position := -1; fragment_count := 0;
     tokenization_counter := 0; chars_since_last_strong_delim := 0 |}.

(** Which [yield] produced a fragment: the forced split, the first-fragment
    path, the tokenizer-confirmed sentences, or the final drain. *)
Inductive origin := Forced | First | Validated | Final.

(** What the generator does that is visible from outside: it yields a
    fragment, or it calls the tokenizer adapter on a text. *)
Inductive event :=
| Yield (o : origin) (fragment : str)
| Tokenize (text : str).

Definition fragments (evs : list event) : list str :=
  flat_map (fun e => match e with Yield _ f => [f] | Tokenize _ => [] end) evs.

Section Generator.
Variable B : Backends.
Variable cfg : config.

(** The two flag adjustments made before the loop. *)
Definition for_all_sentences : bool :=
  quick_yield_every_fragment cfg || quick_yield_for_all_sentences cfg.

Definition single_sentence_fragment : bool :=
  for_all_sentences || quick_yield_single_sentence_fragment cfg.

Definition sentence_fragment_delims_set : str := sentence_fragment_delimiters cfg.
Definition full_sentence_delims_set : str := full_sentence_delimiters cfg.

Definition clean (text : str) : str := _clean_text text (cleanup_text_emojis cfg).

(** The generator sets the global [current_tokenizer] to its [tokenizer]
    argument before the loop. *)
Definition tokenize (text : str) : result (list str) :=
  _tokenize_sentences B (tokenizer cfg) text (tokenize_sentences cfg)
    (poetic_mode cfg) (preserve_line_breaks cfg).

(** Round bracket, square bracket, left guillemet, double and single quote:
    the characters a buffer may start with besides alphanumeric ones. *)
Definition OPENING : str := [40; 91; 171; 34; 39]%N.

(** The filter on leading characters: the character is skipped. *)
Definition leading_filtered (st : state) (c : char) : bool :=
  (len (buffer st) =? 0) && filter_first_non_alnum_characters cfg
  && negb (isalnum c) && negb (char_in c OPENING).

Definition counts_as_word_end (c : char) : bool :=
  isspace c || char_in c sentence_fragment_delims_set.

(** The sentences that the confirmation branch yields. *)
Definition validated (sentences : list str) : list event :=
  flat_map
    (fun sentence =>
       if minimum_sentence_length cfg / 2 <=? len sentence
       then [Yield Validated (clean sentence)] else [])
    sentences.

Definition total_length (sentences : list str) : Z :=
  fold_left (fun acc sentence => acc + len sentence) sentences 0.

(** The lookback check and the tokenizer confirmation, entered with the
    locals as the preceding code left them. *)
Definition lookback (st : state) (c : char) (buffer : str)
  (word_count chars_since : Z) : result (state * list event) :=
  let keep last_delimiter_position tokenization_counter :=
    {| buffer := buffer; is_first_sentence := is_first_sentence st;
       word_count := word_count;
       last_delimiter_position := last_delimiter_position;
       fragment_count := fragment_count st;
       tokenization_counter := tokenization_counter;
       chars_since_last_strong_delim := chars_since |} in
  let last_delimiter_position :=
    if char_in c full_sentence_delims_set then len buffer - 1
    else last_delimiter_position st in
  let continue := Ok (keep last_delimiter_position (tokenization_counter st), []) in
  if context_size cfg <? len buffer then
    delimiter_char <- py_index buffer (- context_size cfg) ;;
    if (if strict_punctuation_mode cfg
        then negb (char_in delimiter_char sentence_fragment_delims_set)
        else char_in delimiter_char IGNORED_DELIMITERS)
    then continue
    else
      let is_strong_delim := char_in delimiter_char full_sentence_delims_set in
      let is_weak_delim := char_in delimiter_char (of_string ";:,") in
      if is_strong_delim || is_weak_delim then
        let chars_after_delimiter := context_size cfg - 1 in
        if chars_after_delimiter <? min_chars_after_delimiter cfg then continue
        else
          likely <- _is_likely_sentence_boundary buffer
                      (len buffer - context_size cfg) ;;
          if negb likely then continue
          else
            let tokenization_counter := tokenization_counter st + 1 in
            check_interval <-
              (if is_weak_delim then
                 n <- int_mul_weak_pause_ratio (tokenization_interval cfg) ;;
                 Ok (Z.max 1 n)
               else if is_strong_delim then
                 int_mul_strong_pause_ratio (tokenization_interval cfg)
               else Ok (tokenization_interval cfg)) ;;
            if tokenization_counter <? check_interval then
              Ok (keep last_delimiter_position tokenization_counter, [])
            else
              let tokenization_counter := 0 in
              sentences <- tokenize buffer ;;
              let unchanged :=
                Ok (keep last_delimiter_position tokenization_counter,
                    [Tokenize buffer]) in
              if 1 <? len sentences then
                let total_length_except_last :=
                  total_length (slice_to sentences (-1)) in
                if minimum_sentence_length cfg <=? total_length_except_last then
                  last_sentence <- py_index sentences (-1) ;;
                  let ends_with_space :=
                    match py_index buffer (-1) with
                    | Ok last => N.eqb last SPACE
                    | Raise _ => false
                    end in
                  Ok ({| buffer := if ends_with_space
                                   then last_sentence ++ [SPACE]
                                   else last_sentence;
                         is_first_sentence :=
                           if for_all_sentences then true
                           else is_first_sentence st;
                         word_count := 0;
                         last_delimiter_position := -1;
                         fragment_count := fragment_count st + 1;
                         tokenization_counter := tokenization_counter;
                         chars_since_last_strong_delim := 0 |},
                      Tokenize buffer :: validated (slice_to sentences (-1)))
                else unchanged
              else unchanged
      else continue
  else continue.

(** The two counters after the update for the character. *)
Definition counted_words (st : state) (c : char) : Z :=
  if counts_as_word_end c then word_count st + 1 else word_count st.

Definition counted_chars_since (st : state) (c : char) : Z :=
  if counts_as_word_end c then
    if char_in c full_sentence_delims_set then 0
    else if negb (char_in c IGNORED_DELIMITERS)
         then chars_since_last_strong_delim st + 1
         else chars_since_last_strong_delim st
  else chars_since_last_strong_delim st + 1.

(** The state when an iteration goes back to the loop head with nothing
    changed but the buffer and the two counters. *)
Definition carried (st : state) (buffer : str) (word_count chars_since : Z)
  : state :=
  {| buffer := buffer; is_first_sentence := is_first_sentence st;
     word_count := word_count;
     last_delimiter_position := last_delimiter_position st;
     fragment_count := fragment_count st;
     tokenization_counter := tokenization_counter st;
     chars_since_last_strong_delim := chars_since |}.

(** The logic for the first fragment, entered with the locals as the
    preceding code left them. [None]: the iteration goes on below it. *)
Definition first_fragment_logic (st : state) (c : char) (buffer : str)
  (word_count chars_since : Z) : result (option (state * list event)) :=
  if is_first_sentence st
     && (minimum_first_fragment_length cfg <=? len buffer)
     && single_sentence_fragment
  then
    last <- py_index buffer (-1) ;;
    if char_in last sentence_fragment_delims_set
       || isspace c && (force_first_fragment_after_words cfg <=? word_count)
    then
      if N.eqb last COMMA && (len (strip buffer) <? 6)
      then Ok (Some (carried st buffer word_count chars_since, []))
      else
        Ok (Some ({| buffer := [];
                     is_first_sentence :=
                       if quick_yield_every_fragment cfg
                       then is_first_sentence st else false;
                     word_count := 0;
                     last_delimiter_position := last_delimiter_position st;
                     fragment_count := fragment_count st + 1;
                     tokenization_counter := 0;
                     chars_since_last_strong_delim := 0 |},
                  [Yield First (clean buffer)]))
    else Ok None
  else Ok None.

(** One iteration of the loop over the characters. *)
Definition step (st : state) (c : char) : result (state * list event) :=
  if leading_filtered st c then Ok (st, [])
  else
    let buffer := lstrip (buffer st ++ [c]) in
    let word_count := counted_words st c in
    let chars_since := counted_chars_since st c in
    if max_buffer_size cfg <? len buffer then
      let forced_text := slice_to buffer (max_buffer_size cfg / 2) in
      Ok ({| buffer := slice_from buffer (max_buffer_size cfg / 2);
             is_first_sentence := is_first_sentence st;
             word_count := Z.max 0 (word_count - 6);
             last_delimiter_position := last_delimiter_position st;
             fragment_count := fragment_count st;
             tokenization_counter := 0;
             chars_since_last_strong_delim := 0 |},
          [Yield Forced (clean forced_text)])
    else
      first <- first_fragment_logic st c buffer word_count chars_since ;;
      match first with
      | Some r => Ok r
      | None =>
          if len buffer <=? minimum_sentence_length cfg + context_size cfg
          then Ok (carried st buffer word_count chars_since, [])
          else lookback st c buffer word_count chars_since
      end.

(** The loop: the state after the characters, and the events in order. *)
Fixpoint run (st : state) (chars : str) : result (state * list event) :=
  match chars with
  | [] => Ok (st, [])
  | c :: rest =>
      r <- step st c ;;
      r' <- run (fst r) rest ;;
      Ok (fst r', snd r ++ snd r')
  end.

(** The loop over the tokenizer's sentences at the end of the stream;
    returns the events and [sentence_buffer] as the loop leaves it. *)
Fixpoint drain (sentences : list str) (sentence_buffer : str)
  : list event * str :=
  match sentences with
  | [] => ([], sentence_buffer)
  | sentence :: rest =>
      let sentence_buffer := sentence_buffer ++ sentence in
      if len sentence_buffer <? minimum_sentence_length cfg then
        drain rest (sentence_buffer ++ [SPACE])
      else
        let '(evs, remaining) := drain rest [] in
        (Yield Final (clean sentence_buffer) :: evs, remaining)
  end.

Definition finish (st : state) : result (list event) :=
  if nonempty (buffer st) then
    sentences <- tokenize (buffer st) ;;
    let '(evs, sentence_buffer) := drain sentences [] in
    Ok (Tokenize (buffer st) :: evs
        ++ if nonempty sentence_buffer
           then [Yield Final (clean sentence_buffer)] else [])
  else Ok [].

(** [_generate_characters] hands the chunks over one character at a time. *)
Definition _generate_characters (generator : list str) : str := concat generator.

Definition generate_sentences_async (generator : list str)
  : result (list event) :=
  r <- run initial (_generate_characters generator) ;;
  evs <- finish (fst r) ;;
  Ok (snd r ++ evs).

End Generator.

End Lib.

(** ** The defaults and a concrete library *)

(** The keyword defaults of [generate_sentences_async]. The two delimiter
    strings are full stop, question mark, exclamation mark, semicolon, colon,
    comma, newline, ellipsis (U+2026), the three closing brackets,
    ideographic full stop (U+3002) and em dash (U+2014); and full stop,
    question mark, exclamation mark, newline, ellipsis, ideographic full stop
    and em dash. *)
Definition default_config : config :=
  {| context_size := 15;
     context_size_look_overhead := 8;
     minimum_sentence_length := 12;
     minimum_first_fragment_length := 8;
     quick_yield_single_sentence_fragment := true;
     quick_yield_for_all_sentences := false;
     quick_yield_every_fragment := false;
     cleanup_text_emojis := false;
     tokenize_sentences := None;
     tokenizer := of_string "stanza";
     filter_first_non_alnum_characters := true;
     force_first_fragment_after_words := 15;
     poetic_mode := false;
     preserve_line_breaks := false;
     max_buffer_size := 700;
     tokenization_interval := 6;
     strict_punctuation_mode := true;
     min_chars_after_delimiter := 25;
     sentence_fragment_delimiters :=
       [46; 63; 33; 59; 58; 44; 10; 8230; 41; 93; 125; 12290; 8212]%N;
     full_sentence_delimiters := [46; 63; 33; 10; 8230; 12290; 8212]%N |}.

(** The library restricted to Basic Latin: letters and digits as
    [str.isalpha] and [str.isalnum] class them there, no emoji to remove,
    and the two float products as they come out for small integers (three
    fifths truncated, and the integer itself). The examples below feed it
    ASCII text only. *)
Definition ascii_letter (c : char) : bool :=
  ((65 <=? c) && (c <=? 90) || (97 <=? c) && (c <=? 122))%N.

Definition ascii_digit (c : char) : bool := ((48 <=? c) && (c <=? 57))%N.

Definition basic_latin : PyLib :=
  {| isalpha := ascii_letter;
     isalnum := fun c => ascii_letter c || ascii_digit c;
     replace_emoji := fun text => text;
     int_mul_weak_pause_ratio := fun n => Ok (Z.quot (3 * n) 5);
     int_mul_strong_pause_ratio := fun n => Ok n |}.

(** No backend is usable: NLTK is not installed and Stanza was never
    initialised. *)
Definition no_backend : Backends :=
  {| import_nltk := Raise ImportError;
     sent_tokenize := fun _ => Raise ImportError;
     import_stanza := Ok tt;
     nlp := None |}.

(** A custom tokenizer for the examples: a sentence ends after each full
    stop. *)
Fixpoint split_after_period (cur : str) (text : str) : list str :=
  match text with
  | [] => match cur with [] => [] | _ => [cur] end
  | c :: rest =>
      if N.eqb c PERIOD then (cur ++ [c]) :: split_after_period [] rest
      else split_after_period (cur ++ [c]) rest
  end.

Definition period_tokenizer : tokenizer_fn :=
  fun text => Ok (split_after_period [] text).

(** ** Notions used to state the properties *)

(** The fragments of a run, without the calls to the tokenizer. *)
Definition fragments_of (r : result (list event)) : result (list str) :=
  evs <- r ;; Ok (fragments evs).

(** A text with its whitespace removed. *)
Definition squash (s : str) : str := filter (fun c => negb (isspace c)) s.

(** The last element of a list, if any. *)
Definition last_error {A} (l : list A) : option A :=
  match rev l with
  | [] => None
  | x :: _ => Some x
  end.

Section Notions.
Context {L : PyLib}.

(** The longest run of letters, hyphens and underscores that ends just
    before position [p]. *)
Definition word_run_before (text : str) (p : Z) : str :=
  rev (takewhile is_word_char (rev (firstn (Z.to_nat p) text))).

End Notions.

(** Python's [join] with a space as the separator. *)
Fixpoint join_spaces (l : list str) : str :=
  match l with
  | [] => []
  | s :: rest =>
      match rest with
      | [] => s
      | _ => s ++ SPACE :: join_spaces rest
      end
  end.

(** The configurations of the examples: the defaults, except for the
    context size, the minimum sentence length, the buffer limit, the
    tokenization interval, the characters required after a delimiter, the
    quick yield of the first fragment, and the tokenizer callback. *)
Definition example_config (context minimum limit interval after : Z)
  (quick : bool) (callback : option tokenizer_fn) : config :=
  {| context_size := context;
     context_size_look_overhead := 8;
     minimum_sentence_length := minimum;
     minimum_first_fragment_length := 8;
     quick_yield_single_sentence_fragment := quick;
     quick_yield_for_all_sentences := false;
     quick_yield_every_fragment := false;
     cleanup_text_emojis := false;
     tokenize_sentences := callback;
     tokenizer := of_string "stanza";
     filter_first_non_alnum_characters := true;
     force_first_fragment_after_words := 15;
     poetic_mode := false;
     preserve_line_breaks := false;
     max_buffer_size := limit;
     tokenization_interval := interval;
     strict_punctuation_mode := true;
     min_chars_after_delimiter := after;
     sentence_fragment_delimiters := sentence_fragment_delimiters default_config;
     full_sentence_delimiters := full_sentence_delimiters default_config |}.

(** A state whose buffer is [text], otherwise as at the start. *)
Definition with_buffer (text : str) : state :=
  {| buffer := text; is_first_sentence := true; word_count := 0;
     last_delimiter_position := -1; fragment_count := 0;
     tokenization_counter := 0; chars_since_last_strong_delim := 0 |}.

(** An event of the two paths that need no tokenizer. *)
Definition quick_or_forced (e : event) : Prop :=
  match e with
  | Yield Forced _ | Yield First _ => True
  | _ => False
  end.

(** What [temp_sentence] holds after a run of short sentences: each of them
    with a space after it. *)
Definition spaced (run : list str) : str :=
  concat (map (fun s => s ++ [SPACE]) run).

(** The text that the fallbacks of the adapter return: the input, or, in
    the one branch that rebinds [text], the input with its newlines replaced
    by spaces. *)
Definition fallback_text (text : str) (callback : option tokenizer_fn)
  (poetic_mode preserve_line_breaks : bool) : str :=
  match callback with
  | Some _ => text
  | None =>
      if poetic_mode && negb preserve_line_breaks
      then replace NEWLINE SPACE text else text
  end.

(** A tokenizer whose sentences make up the text, whitespace aside. *)
Definition backend_faithful (f : tokenizer_fn) : Prop :=
  forall text sentences,
    f text = Ok sentences -> squash (concat sentences) = squash text.

Section Outcomes.
Context {L : PyLib}.
Variable B : Backends.
Variable cfg : config.

(** The buffer once the character is appended and leading whitespace is
    stripped. *)
Definition appended (st : state) (c : char) : str := lstrip (buffer st ++ [c]).

(** The characters of a stream that the loop, started in [st], appends to
    the buffer: every character but those that the leading filter skips,
    which it does, when it is on, for a character that is neither
    alphanumeric nor an opening one and that arrives while the buffer is
    empty. *)
Fixpoint kept_characters (st : state) (chars : str) : result str :=
  match chars with
  | [] => Ok []
  | c :: rest =>
      r <- step B cfg st c ;;
      kept <- kept_characters (fst r) rest ;;
      Ok (if leading_filtered cfg st c then kept else c :: kept)
  end.

(** The ways one iteration can end, with what each leaves in the buffer and
    what it emits: the character is filtered; the buffer is split by force;
    the iteration only accumulates; the first fragment is yielded; the
    tokenizer is asked and nothing is cut; the tokenizer confirms sentences. *)
Inductive outcome (st : state) (c : char) : state -> list event -> Prop :=
| filtered_out :
    leading_filtered cfg st c = true ->
    outcome st c st []
| split_by_force st' :
    leading_filtered cfg st c = false ->
    max_buffer_size cfg < len (appended st c) ->
    buffer st' = slice_from (appended st c) (max_buffer_size cfg / 2) ->
    outcome st c st'
      [Yield Forced
         (clean cfg (slice_to (appended st c) (max_buffer_size cfg / 2)))]
| accumulated st' :
    leading_filtered cfg st c = false ->
    len (appended st c) <= max_buffer_size cfg ->
    buffer st' = appended st c ->
    outcome st c st' []
| first_yielded st' :
    leading_filtered cfg st c = false ->
    len (appended st c) <= max_buffer_size cfg ->
    minimum_first_fragment_length cfg <= len (appended st c) ->
    buffer st' = [] ->
    outcome st c st' [Yield First (clean cfg (appended st c))]
| asked st' :
    leading_filtered cfg st c = false ->
    len (appended st c) <= max_buffer_size cfg ->
    min_chars_after_delimiter cfg <= context_size cfg - 1 ->
    buffer st' = appended st c ->
    outcome st c st' [Tokenize (appended st c)]
| confirmed st' front last_sentence :
    leading_filtered cfg st c = false ->
    len (appended st c) <= max_buffer_size cfg ->
    min_chars_after_delimiter cfg <= context_size cfg - 1 ->
    tokenize B cfg (appended st c) = Ok (front ++ [last_sentence]) ->
    front <> [] ->
    buffer st' = last_sentence \/ buffer st' = last_sentence ++ [SPACE] ->
    outcome st c st' (Tokenize (appended st c) :: validated cfg front).

(** Assumptions on the tokenizer adapter under which the generator keeps
    its buffer bounded and its output complete: when the adapter returns
    several sentences, the last one is shorter than the text; the sentences
    it returns make up the text, whitespace aside; the sentences it returns
    before the last one are long enough to pass the length test of the
    confirmation branch. *)
Definition tokenizer_shrinks : Prop :=
  forall text front last_sentence,
    tokenize B cfg text = Ok (front ++ [last_sentence]) ->
    front <> [] ->
    len last_sentence < len text.

Definition tokenizer_faithful : Prop :=
  forall text sentences,
    tokenize B cfg text = Ok sentences ->
    squash (concat sentences) = squash text.

Definition confirmed_sentences_long : Prop :=
  forall text front last_sentence sentence,
    tokenize B cfg text = Ok (front ++ [last_sentence]) ->
    In sentence front ->
    minimum_sentence_length cfg / 2 <= len sentence.

(** The lookback guard can never pass. *)
Definition lookback_dead : Prop :=
  context_size cfg - 1 < min_chars_after_delimiter cfg.

(** What the tests of the loop guarantee of an event of the iteration that
    starts in [st] and reads [c]. A first fragment is the cleaned buffer of
    the iteration, and that buffer reached the minimum first-fragment
    length. A confirmed fragment is the cleaned form of a sentence that the
    adapter returned for that buffer, before the last one, and that is at
    least half the minimum sentence length long. A forced fragment is the
    cleaned front of a buffer beyond the limit; the tokenizer is asked about
    the buffer; and no iteration yields a fragment of the final drain. *)
Definition length_tested (st : state) (c : char) (e : event) : Prop :=
  match e with
  | Yield First f =>
      f = clean cfg (appended st c)
      /\ minimum_first_fragment_length cfg <= len (appended st c)
  | Yield Validated f =>
      exists front last_sentence sentence,
        tokenize B cfg (appended st c) = Ok (front ++ [last_sentence])
        /\ In sentence front
        /\ f = clean cfg sentence
        /\ minimum_sentence_length cfg / 2 <= len sentence
  | Yield Forced f =>
      f = clean cfg (slice_to (appended st c) (max_buffer_size cfg / 2))
      /\ max_buffer_size cfg < len (appended st c)
  | Tokenize text => text = appended st c
  | Yield Final _ => False
  end.

(** What the final loop yields for the sentences of the adapter. [groups]
    are the runs of consecutive sentences that it joined, with a space
    between two of them, into a buffer that reached the minimum sentence
    length, and yielded; [rest] are the sentences after them, which it
    yields last, each with a space after it, and which joined are shorter
    than the minimum. *)
Definition drained (sentences : list str) (evs : list event) : Prop :=
  exists groups rest,
    sentences = concat groups ++ rest
    /\ evs = map (fun g => Yield Final (clean cfg (join_spaces g))) groups
             ++ (if nonempty rest
                 then [Yield Final (clean cfg (spaced rest))] else [])
    /\ Forall (fun g => g <> []
                        /\ minimum_sentence_length cfg <= len (join_spaces g))
         groups
    /\ (rest <> [] -> len (join_spaces rest) < minimum_sentence_length cfg).

End Outcomes.

(** Some entry shorter than 10 characters has another entry after it. *)
Fixpoint short_before_last (sentences : list str) : bool :=
  match sentences with
  | [] => false
  | sentence :: rest =>
      (len sentence <? 10) && nonempty rest || short_before_last rest
  end.

(** A text that neither starts nor ends with whitespace. *)
Definition trimmed (f : str) : Prop :=
  match f with [] => True | c :: _ => isspace c = false end
  /\ match rev f with [] => True | c :: _ => isspace c = false end.

(** The events of a run whose fragments are all trimmed. *)
Definition yields_trimmed (e : event) : Prop :=
  match e with
  | Yield _ f => trimmed f
  | Tokenize _ => True
  end.

(** The number of first fragments among the events. *)
Definition count_first (evs : list event) : nat :=
  length (filter (fun e => match e with Yield First _ => true | _ => false end)
            evs).

(** Two states that agree on what the loop reads: the buffer, the
    first-fragment mode, the word count and the tokenization counter. *)
Definition same_visible (st1 st2 : state) : Prop :=
  buffer st1 = buffer st2
  /\ is_first_sentence st1 = is_first_sentence st2
  /\ word_count st1 = word_count st2
  /\ tokenization_counter st1 = tokenization_counter st2.

(** Two results that raise the same exception, or return states that agree
    on what the loop reads and the same events. *)
Definition same_result (r1 r2 : result (state * list event)) : Prop :=
  match r1, r2 with
  | Ok (st1, evs1), Ok (st2, evs2) => same_visible st1 st2 /\ evs1 = evs2
  | Raise e1, Raise e2 => e1 = e2
  | _, _ => False
  end.

(** ** Initialisation of the tokenizers

    The module globals, the calls that the initialisation makes into NLTK
    and Stanza, and [initialize_nltk], [initialize_stanza] and
    [init_tokenizer] over them. Messages to the log and to the console are
    left out. *)
Module Init.

Record globals := {
  current_tokenizer : str;
  stanza_initialized : bool;
  nltk_initialized : bool;
  nlp : option tokenizer_fn
}.

(** The globals when the module is loaded. *)
Definition fresh : globals :=
  {| current_tokenizer := of_string "stanza"; stanza_initialized := false;
     nltk_initialized := false; nlp := None |}.

(** How [nltk.data.find] ends: the data is there, [LookupError], or another
    exception. *)
Inductive lookup := Found | NotFound | LookupFailed (e : exn).

(** What the libraries answer during one initialisation: the two imports,
    the search for the Punkt data, its download (given [quiet]), the
    download of the Stanza models of a language, and the construction of the
    pipeline for a language. *)
Record library := {
  import_nltk : result unit;
  find_punkt : lookup;
  download_punkt : bool -> result unit;
  import_stanza : result unit;
  download_models : str -> result unit;
  build_pipeline : str -> result tokenizer_fn
}.

(** The calls made into the libraries, in order. *)
Inductive action :=
| ImportNltk
| FindPunkt
| DownloadPunkt (quiet : bool)
| ImportStanza
| DownloadModels (language : str)
| BuildPipeline (language : str).

Definition set_nltk (G : globals) (b : bool) : globals :=
  {| current_tokenizer := current_tokenizer G;
     stanza_initialized := stanza_initialized G;
     nltk_initialized := b; nlp := nlp G |}.

Definition set_stanza (G : globals) (b : bool) : globals :=
  {| current_tokenizer := current_tokenizer G;
     stanza_initialized := b;
     nltk_initialized := nltk_initialized G; nlp := nlp G |}.

Definition set_nlp (G : globals) (pipeline : tokenizer_fn) : globals :=
  {| current_tokenizer := current_tokenizer G;
     stanza_initialized := stanza_initialized G;
     nltk_initialized := nltk_initialized G; nlp := Some pipeline |}.

Definition set_current (G : globals) (name : str) : globals :=
  {| current_tokenizer := name;
     stanza_initialized := stanza_initialized G;
     nltk_initialized := nltk_initialized G; nlp := nlp G |}.

Definition initialize_nltk (W : library) (G : globals) (debug : bool)
  : globals * list action :=
  if nltk_initialized G then (G, [])
  else
    match import_nltk W with
    | Raise _ => (set_nltk G false, [ImportNltk])
    | Ok _ =>
        match find_punkt W with
        | Found => (set_nltk G true, [ImportNltk; FindPunkt])
        | NotFound =>
            match download_punkt W (negb debug) with
            | Ok _ =>
                (set_nltk G true,
                 [ImportNltk; FindPunkt; DownloadPunkt (negb debug)])
            | Raise _ =>
                (set_nltk G false,
                 [ImportNltk; FindPunkt; DownloadPunkt (negb debug)])
            end
        | LookupFailed _ => (set_nltk G false, [ImportNltk; FindPunkt])
        end
    end.

Definition initialize_stanza (W : library) (G : globals) (language : str)
  (offline : bool) : globals * list action :=
  if stanza_initialized G then (G, [])
  else
    match import_stanza W with
    | Raise _ => (set_stanza G false, [ImportStanza])
    | Ok _ =>
        let build (before : list action) :=
          match build_pipeline W language with
          | Ok pipeline =>
              (set_stanza (set_nlp G pipeline) true,
               before ++ [BuildPipeline language])
          | Raise _ => (set_stanza G false, before ++ [BuildPipeline language])
          end in
        if negb offline then
          match download_models W language with
          | Ok _ => build [ImportStanza; DownloadModels language]
          | Raise _ =>
              (set_stanza G false, [ImportStanza; DownloadModels language])
          end
        else build [ImportStanza]
    end.

Definition init_tokenizer (W : library) (G : globals) (tokenizer language : str)
  (offline debug : bool) : globals * list action :=
  if str_eqb tokenizer (of_string "nltk") then initialize_nltk W G debug
  else if str_eqb tokenizer (of_string "stanza")
       then initialize_stanza W G language offline
       else (G, []).

(** The first statements of [generate_sentences_async]: the global
    [current_tokenizer] is set, and [init_tokenizer] is called with the
    tokenizer, the language and [debug], in that order. *)
Definition start_stream (W : library) (G : globals) (tokenizer language : str)
  (debug : bool) : globals * list action :=
  let G := set_current G tokenizer in
  init_tokenizer W G (current_tokenizer G) language debug false.

(** The backends that [_tokenize_sentences] finds, given the globals and
    NLTK's [sent_tokenize]. *)
Definition backends (W : library) (G : globals) (sent_tokenize : tokenizer_fn)
  : Backends :=
  Build_Backends (import_nltk W) sent_tokenize (import_stanza W) (nlp G).

(** A sequence of initialisations, each with what the libraries answer at
    that time. *)
Record request := {
  answers : library;
  wanted : str;
  wanted_language : str;
  wanted_offline : bool;
  wanted_debug : bool
}.

Fixpoint initialise_all (G : globals) (requests : list request) : globals :=
  match requests with
  | [] => G
  | r :: rest =>
      initialise_all
        (fst (init_tokenizer (answers r) G (wanted r) (wanted_language r)
                (wanted_offline r) (wanted_debug r)))
        rest
  end.

End Init.

(** The libraries of the examples: both imports succeed, the Punkt data is
    missing and its download works, and the download of the Stanza models
    and the construction of the pipeline end as given. *)
Definition example_library (download : result unit)
  (pipeline : result tokenizer_fn) : Init.library :=
  Init.Build_library (Ok tt) Init.NotFound (fun _ => Ok tt) (Ok tt)
    (fun _ => download) (fun _ => pipeline).

(** A state as [with_buffer] gives it, with other values in the three
    counters that the loop only writes. *)
Definition with_counters (text : str) (position fragments since : Z) : state :=
  {| buffer := text; is_first_sentence := true; word_count := 0;
     last_delimiter_position := position; fragment_count := fragments;
     tokenization_counter := 0; chars_since_last_strong_delim := since |}.

(** * Properties *)

(** ** Strings *)

Lemma len_nonneg {A} (s : list A) : 0 <= len s.
Proof. unfold len. lia. Qed.

Lemma len_app {A} (a b : list A) : len (a ++ b) = len a + len b.
Proof. unfold len. rewrite length_app. lia. Qed.

Lemma len_cons {A} (a : A) (s : list A) : len (a :: s) = 1 + len s.
Proof. unfold len. simpl length. lia. Qed.

Lemma dropwhile_length {A} (p : A -> bool) (s : list A) :
  (length (dropwhile p s) <= length s)%nat.
Proof.
  induction s as [|c s IH]; simpl; [lia|].
  destruct (p c); simpl; lia.
Qed.

Lemma lstrip_len (s : str) : len (lstrip s) <= len s.
Proof. unfold lstrip, len. pose proof (dropwhile_length isspace s). lia. Qed.

Lemma squash_app (a b : str) : squash (a ++ b) = squash a ++ squash b.
Proof. apply filter_app. Qed.

Lemma squash_lstrip (s : str) : squash (lstrip s) = squash s.
Proof.
  unfold lstrip, squash. induction s as [|c s IH]; simpl; [reflexivity|].
  destruct (isspace c) eqn:E; simpl; [exact IH|].
  rewrite E. reflexivity.
Qed.

Lemma squash_rev (s : str) : squash (rev s) = rev (squash s).
Proof.
  unfold squash. induction s as [|c s IH]; simpl; [reflexivity|].
  rewrite filter_app, IH. simpl. destruct (isspace c); simpl.
  - apply app_nil_r.
  - reflexivity.
Qed.

Lemma squash_rstrip (s : str) : squash (rstrip s) = squash s.
Proof.
  unfold rstrip. rewrite squash_rev.
  change (dropwhile isspace (rev s)) with (lstrip (rev s)).
  rewrite squash_lstrip, squash_rev. apply rev_involutive.
Qed.

Lemma squash_strip (s : str) : squash (strip s) = squash s.
Proof. unfold strip. rewrite squash_lstrip. apply squash_rstrip. Qed.

Lemma rstrip_app_space (s : str) (w : char) :
  isspace w = true -> rstrip (s ++ [w]) = rstrip s.
Proof.
  intros Hw. unfold rstrip. rewrite rev_app_distr. simpl. rewrite Hw.
  reflexivity.
Qed.

Lemma strip_app_space (s : str) (w : char) :
  isspace w = true -> strip (s ++ [w]) = strip s.
Proof. intros Hw. unfold strip. rewrite rstrip_app_space; auto. Qed.

(** [split] ignores leading and trailing whitespace. *)
Lemma split_from_app_space (s cur : str) (w : char) :
  isspace w = true -> split_from cur (s ++ [w]) = split_from cur s.
Proof.
  intros Hw. revert cur. induction s as [|c s IH]; intros cur; simpl.
  - rewrite Hw. destruct cur; reflexivity.
  - destruct (isspace c); [destruct cur|]; rewrite ?IH; reflexivity.
Qed.

Lemma split_lstrip (s : str) : split (lstrip s) = split s.
Proof.
  unfold split, lstrip. induction s as [|c s IH]; simpl; [reflexivity|].
  destruct (isspace c) eqn:E; [exact IH|].
  simpl. rewrite E. reflexivity.
Qed.

Lemma split_from_rstrip (s cur : str) :
  split_from cur (rstrip s) = split_from cur s.
Proof.
  unfold rstrip. rewrite <- (rev_involutive s) at 2.
  induction (rev s) as [|c r IH]; simpl; [reflexivity|].
  destruct (isspace c) eqn:E.
  - rewrite IH. symmetry. apply split_from_app_space. exact E.
  - reflexivity.
Qed.

Lemma split_strip (s : str) : split (strip s) = split s.
Proof.
  unfold strip. rewrite split_lstrip. unfold split. apply split_from_rstrip.
Qed.

(** A run of non-whitespace characters at the end of a text is the end of
    its last word, and the whole of it when whitespace comes before. *)
Lemma split_from_word (w cur : str) :
  forallb (fun c => negb (isspace c)) w = true ->
  cur ++ w <> [] ->
  split_from cur w = [cur ++ w].
Proof.
  revert cur. induction w as [|c w IH]; intros cur Hw Hne; simpl.
  - rewrite app_nil_r in *. destruct cur; [contradiction | reflexivity].
  - simpl in Hw. apply andb_prop in Hw as [Hc Hw].
    apply negb_true_iff in Hc. rewrite Hc.
    rewrite IH; auto.
    + rewrite <- app_assoc. reflexivity.
    + destruct cur; discriminate.
Qed.

Lemma split_from_space_word (s w cur : str) (sp : char) :
  isspace sp = true ->
  forallb (fun c => negb (isspace c)) w = true ->
  w <> [] ->
  exists l, split_from cur (s ++ sp :: w) = l ++ [w].
Proof.
  intros Hsp Hw Hne. revert cur.
  induction s as [|c s IH]; intros cur; simpl.
  - rewrite Hsp. rewrite (split_from_word w []); auto.
    destruct cur as [|x cur]; [exists [] | exists [x :: cur]]; reflexivity.
  - destruct (isspace c).
    + destruct (IH []) as [l Hl]. rewrite Hl.
      destruct cur as [|x cur]; [exists l | exists ((x :: cur) :: l)];
        reflexivity.
    + apply IH.
Qed.

Lemma last_error_app {A} (l : list A) (x : A) : last_error (l ++ [x]) = Some x.
Proof. unfold last_error. rewrite rev_app_distr. reflexivity. Qed.

Lemma last_error_nil_inv {A} (l : list A) : last_error l = None -> l = [].
Proof.
  unfold last_error. destruct (rev l) eqn:E; [|discriminate].
  intros _. apply (f_equal (@rev A)) in E. rewrite rev_involutive in E. exact E.
Qed.

Lemma last_error_split {A} (l : list A) (x : A) :
  last_error l = Some x -> exists l', l = l' ++ [x].
Proof.
  unfold last_error. destruct (rev l) as [|y r] eqn:E; [discriminate|].
  intros [= ->]. exists (rev r).
  apply (f_equal (@rev A)) in E. rewrite rev_involutive in E. exact E.
Qed.

(** Indexing from the end with [-1] is the last element. *)
Lemma py_index_last {A} (l : list A) (x : A) :
  py_index (l ++ [x]) (-1) = Ok x.
Proof.
  unfold py_index. rewrite len_app. change (len [x]) with 1.
  pose proof (len_nonneg l).
  replace (-1 <? 0) with true by reflexivity.
  replace (len l + 1 + -1) with (len l) by lia.
  destruct (len l <? 0) eqn:E1; [lia|].
  destruct (len l + 1 <=? len l) eqn:E2; [lia|].
  simpl. unfold len. rewrite Nat2Z.id.
  rewrite nth_error_app2 by lia. rewrite Nat.sub_diag. reflexivity.
Qed.

Lemma py_index_nonneg {A} (s : list A) (i : Z) (a : A) :
  0 <= i -> py_index s i = Ok a -> nth_error s (Z.to_nat i) = Some a /\ i < len s.
Proof.
  intros Hi. unfold py_index.
  destruct (i <? 0) eqn:E; [lia|].
  destruct ((i <? 0) || (len s <=? i)) eqn:E2; [discriminate|].
  apply orb_false_elim in E2 as [_ E2].
  destruct (nth_error s (Z.to_nat i)); [|discriminate].
  intros [= ->]. split; [reflexivity | lia].
Qed.

Lemma clamp_nonneg {A} (s : list A) (i : Z) :
  0 <= i <= len s -> clamp s i = Z.to_nat i.
Proof.
  intros [H1 H2]. unfold clamp, len in *.
  destruct (i <? 0) eqn:E; lia.
Qed.

Lemma slice_to_firstn {A} (s : list A) (i : Z) :
  0 <= i <= len s -> slice_to s i = firstn (Z.to_nat i) s.
Proof. intros H. unfold slice_to. rewrite clamp_nonneg; auto. Qed.

Lemma slice_from_skipn {A} (s : list A) (i : Z) :
  0 <= i <= len s -> slice_from s i = skipn (Z.to_nat i) s.
Proof. intros H. unfold slice_from. rewrite clamp_nonneg; auto. Qed.

Lemma slice_to_from {A} (s : list A) (i : Z) : slice_to s i ++ slice_from s i = s.
Proof. apply firstn_skipn. Qed.

(** ** The boundary heuristic *)

Section Boundary.
Context {L : PyLib}.

Lemma boundary_before_one (text : str) (p : Z) :
  p < 1 -> _is_likely_sentence_boundary text p = Ok false.
Proof.
  intros Hp. unfold _is_likely_sentence_boundary.
  destruct (p <? 1) eqn:E; [reflexivity | lia].
Qed.

Lemma comma_short_fragment (text : str) (p : Z) :
  py_index text p = Ok COMMA ->
  len (strip (slice_to text p)) < 4 ->
  _is_likely_sentence_boundary text p = Ok false.
Proof.
  intros Hc Hlen. unfold _is_likely_sentence_boundary.
  destruct (p <? 1); [reflexivity|].
  rewrite Hc. simpl.
  destruct (len (strip (slice_to text p)) <? 4) eqn:E; [reflexivity | lia].
Qed.

Lemma comma_short_word (text : str) (p : Z) (w : str) :
  py_index text p = Ok COMMA ->
  last_error (split (slice_to text p)) = Some w ->
  len w <= 3 ->
  _is_likely_sentence_boundary text p = Ok false.
Proof.
  intros Hc Hw Hlen. unfold _is_likely_sentence_boundary.
  destruct (p <? 1); [reflexivity|].
  rewrite Hc. simpl.
  destruct (len (strip (slice_to text p)) <? 4); [reflexivity|].
  rewrite split_strip.
  apply last_error_split in Hw as [l Hl]. rewrite Hl.
  destruct (l ++ [w]) eqn:E; [destruct l; discriminate|].
  rewrite <- E, py_index_last. simpl.
  destruct (len w <=? 3) eqn:E3; [reflexivity | lia].
Qed.

Lemma last_word_of_two (pre : str) (a b : char) :
  isspace a = false -> isspace b = false ->
  pre = [] \/ (exists pre' sp, pre = pre' ++ [sp] /\ isspace sp = true) ->
  last_error (split (pre ++ [a; b])) = Some [a; b].
Proof.
  intros Ha Hb Hpre.
  assert (Hw : forallb (fun c => negb (isspace c)) [a; b] = true)
    by (simpl; rewrite Ha, Hb; reflexivity).
  destruct Hpre as [-> | (pre' & sp & -> & Hsp)].
  - unfold split. simpl app. rewrite (split_from_word [a; b] []); auto.
    discriminate.
  - rewrite <- app_assoc. simpl app. unfold split.
    destruct (split_from_space_word pre' [a; b] [] sp Hsp Hw) as [l Hl];
      [discriminate|].
    rewrite Hl. apply last_error_app.
Qed.

Lemma firstn_succ_nth {A} (l : list A) (k : nat) (d : A) :
  (k < length l)%nat -> firstn (S k) l = firstn k l ++ [nth k l d].
Proof.
  revert k. induction l as [|x l IH]; intros k Hk; simpl in Hk; [lia|].
  destruct k as [|k]; [reflexivity|].
  cbn [firstn nth app]. f_equal. apply IH. lia.
Qed.

(** The backward scan stops just before the run of word characters. *)
Lemma scan_word_start_spec (text : str) (n : nat) :
  (n <= length text)%nat ->
  scan_word_start text n
  = Z.of_nat n - 1
    - Z.of_nat (length (takewhile is_word_char (rev (firstn n text)))).
Proof.
  induction n as [|k IH]; intros Hn.
  - reflexivity.
  - rewrite (firstn_succ_nth text k 0%N) by lia.
    rewrite rev_app_distr. cbn [rev app takewhile scan_word_start].
    destruct (is_word_char (nth k text 0%N)).
    + rewrite IH by lia. cbn [length]. lia.
    + cbn [length]. lia.
Qed.

Lemma takewhile_length {A} (p : A -> bool) (s : list A) :
  (length (takewhile p s) <= length s)%nat.
Proof.
  induction s as [|c s IH]; simpl; [lia|].
  destruct (p c); simpl; lia.
Qed.

Lemma word_before_dot_len (text : str) (p : Z) :
  0 <= p <= len text ->
  len (slice text (scan_word_start text (Z.to_nat p) + 1) p)
  = len (word_run_before text p).
Proof.
  intros Hp. unfold len in Hp.
  rewrite scan_word_start_spec by lia.
  unfold word_run_before. unfold len at 2. rewrite length_rev.
  set (r := length (takewhile is_word_char (rev (firstn (Z.to_nat p) text)))).
  assert (Hr : (r <= Z.to_nat p)%nat).
  { subst r. etransitivity; [apply takewhile_length|].
    rewrite length_rev, length_firstn. lia. }
  unfold slice. rewrite !clamp_nonneg by (unfold len; lia).
  unfold len. rewrite length_firstn, length_skipn. lia.
Qed.

Lemma py_index_in_range {A} (s : list A) (i : Z) :
  0 <= i < len s -> exists a, py_index s i = Ok a.
Proof.
  intros [H1 H2]. unfold py_index.
  destruct (i <? 0) eqn:E; [lia|]. rewrite E. simpl.
  destruct (len s <=? i) eqn:E2; [lia|].
  destruct (nth_error s (Z.to_nat i)) eqn:E3; [eauto|].
  apply nth_error_None in E3. unfold len in H2. lia.
Qed.

Lemma py_index_out_of_range {A} (s : list A) (i : Z) :
  len s <= i -> py_index s i = Raise IndexError.
Proof.
  intros H. unfold py_index. pose proof (len_nonneg s).
  destruct (i <? 0) eqn:E; [lia|]. rewrite E. simpl.
  destruct (len s <=? i) eqn:E2; [reflexivity | lia].
Qed.

(** C4. At a comma, the heuristic answers [False] when the trimmed text
    before the comma has fewer than 4 characters, and when the last
    whitespace-separated word before the comma has at most 3 characters; in
    particular a comma that directly follows a word of two characters is
    never a boundary. *)
Theorem comma_rule (text : str) (p : Z)
  (Hcomma : py_index text p = Ok COMMA) :
  (len (strip (slice_to text p)) < 4 ->
   _is_likely_sentence_boundary text p = Ok false)
  /\ (forall w, last_error (split (slice_to text p)) = Some w ->
                len w <= 3 ->
                _is_likely_sentence_boundary text p = Ok false)
  /\ (forall pre a b,
        slice_to text p = pre ++ [a; b] ->
        isspace a = false -> isspace b = false ->
        pre = [] \/ (exists pre' sp, pre = pre' ++ [sp] /\ isspace sp = true) ->
        _is_likely_sentence_boundary text p = Ok false).
Proof.
  split; [|split].
  - apply comma_short_fragment; assumption.
  - intros w. apply comma_short_word; assumption.
  - intros pre a b Hpre Ha Hb Hbefore.
    apply (comma_short_word text p [a; b]); auto.
    + rewrite Hpre. apply last_word_of_two; assumption.
    + cbv. discriminate.
Qed.

(** C5. Before position 1 the heuristic answers [False]. At a period in a
    later position it answers [False] exactly when the run of letters,
    hyphens and underscores just before the period has at most 2 characters
    and the character right after the period exists and is alphanumeric or a
    period. At any other character than a comma or a period, in a position
    from 1 on, it answers [True]. *)
Theorem period_rule (text : str) (p : Z) :
  (p < 1 -> _is_likely_sentence_boundary text p = Ok false)
  /\ (1 <= p -> py_index text p = Ok PERIOD ->
      exists b,
        _is_likely_sentence_boundary text p = Ok b
        /\ (b = false <->
            len (word_run_before text p) <= 2
            /\ exists c, py_index text (p + 1) = Ok c
                         /\ (isalnum c = true \/ c = PERIOD)))
  /\ (1 <= p ->
      forall c, py_index text p = Ok c -> c <> COMMA -> c <> PERIOD ->
                _is_likely_sentence_boundary text p = Ok true).
Proof.
  split; [apply boundary_before_one | split].
  - intros Hp Hdot. unfold _is_likely_sentence_boundary.
    destruct (p <? 1) eqn:E1; [lia|].
    rewrite Hdot. cbn [bind]. change (N.eqb PERIOD COMMA) with false.
    change (N.eqb PERIOD PERIOD) with true. cbv iota.
    destruct (py_index_nonneg text p PERIOD ltac:(lia) Hdot) as [_ Hlt].
    rewrite word_before_dot_len by lia.
    destruct (len (word_run_before text p) <=? 2) eqn:E2.
    + destruct (p + 1 <? len text) eqn:E3.
      * destruct (py_index_in_range text (p + 1) ltac:(lia)) as [c Hc].
        rewrite Hc. cbn [bind].
        destruct (isalnum c || N.eqb c PERIOD) eqn:E4.
        -- exists false. split; [reflexivity|]. split; [intros _ | reflexivity].
           split; [lia|]. exists c. split; [reflexivity|].
           apply orb_prop in E4 as [E4 | E4]; [left; exact E4|].
           right. apply N.eqb_eq. exact E4.
        -- exists true. split; [reflexivity|]. split; [discriminate|].
           intros (_ & c' & [= <-] & Hc').
           apply orb_false_elim in E4 as [E4 E5].
           destruct Hc' as [Hc' | Hc']; [congruence|].
           apply N.eqb_neq in E5. contradiction.
      * exists true. split; [reflexivity|]. split; [discriminate|].
        intros (_ & c & Hc & _).
        rewrite py_index_out_of_range in Hc by lia. discriminate.
    + exists true. split; [reflexivity|]. split; [discriminate|].
      intros [Hrun _]. lia.
  - intros Hp c Hc Hcomma Hdot. unfold _is_likely_sentence_boundary.
    destruct (p <? 1) eqn:E1; [lia|].
    rewrite Hc. cbn [bind].
    destruct (N.eqb c COMMA) eqn:E2; [apply N.eqb_eq in E2; contradiction|].
    destruct (N.eqb c PERIOD) eqn:E3; [apply N.eqb_eq in E3; contradiction|].
    reflexivity.
Qed.

End Boundary.

(** The comma in [Mr, he went home.] sits at position 2, after a word of two
    characters. *)
Lemma comma_rule_witness :
  py_index (of_string "Mr, he went home.") 2 = Ok COMMA
  /\ _is_likely_sentence_boundary (L := basic_latin)
       (of_string "Mr, he went home.") 2 = Ok false.
Proof.
  split; [reflexivity|].
  refine (proj2 (proj2 (comma_rule (L := basic_latin)
            (of_string "Mr, he went home.") 2 eq_refl))
            [] 77%N 114%N eq_refl eq_refl eq_refl (or_introl eq_refl)).
Defined.

(** In [e.g. this] the period at position 1 follows the one-letter run [e]
    and is followed by a letter; the question mark of [Hi?] is accepted. *)
Lemma period_rule_witness :
  (exists b,
     _is_likely_sentence_boundary (L := basic_latin) (of_string "e.g. this") 1
     = Ok b
     /\ (b = false <->
         len (word_run_before (L := basic_latin) (of_string "e.g. this") 1) <= 2
         /\ exists c, py_index (of_string "e.g. this") (1 + 1) = Ok c
                      /\ (isalnum (PyLib := basic_latin) c = true \/ c = PERIOD)))
  /\ _is_likely_sentence_boundary (L := basic_latin) (of_string "Hi?") 2
     = Ok true.
Proof.
  split.
  - apply (proj1 (proj2 (period_rule (L := basic_latin)
                           (of_string "e.g. this") 1))).
    + lia.
    + reflexivity.
  - apply (proj2 (proj2 (period_rule (L := basic_latin) (of_string "Hi?") 2))
             ltac:(lia) 63%N).
    + reflexivity.
    + discriminate.
    + discriminate.
Defined.

(** ** The tokenizer adapter *)

Lemma join_spaces_cons (a : str) (rest : list str) :
  rest <> [] -> join_spaces (a :: rest) = a ++ SPACE :: join_spaces rest.
Proof. destruct rest; [contradiction | reflexivity]. Qed.

Lemma join_spaces_snoc (run : list str) (s : str) :
  join_spaces (run ++ [s]) = spaced run ++ s.
Proof.
  induction run as [|a run IH]; [reflexivity|].
  change ((a :: run) ++ [s]) with (a :: (run ++ [s])).
  rewrite join_spaces_cons by (destruct run; discriminate).
  rewrite IH. unfold spaced. cbn [map concat].
  rewrite <- !app_assoc. reflexivity.
Qed.

Lemma spaced_snoc (run : list str) (s : str) :
  spaced (run ++ [s]) = spaced run ++ s ++ [SPACE].
Proof.
  unfold spaced. rewrite map_app, concat_app. cbn [map concat].
  rewrite app_nil_r. reflexivity.
Qed.

Lemma strip_spaced (run : list str) :
  run <> [] -> strip (spaced run) = strip (join_spaces run).
Proof.
  intros Hne. destruct (rev run) as [|s r] eqn:E.
  - apply (f_equal (@rev str)) in E. rewrite rev_involutive in E.
    contradiction.
  - apply (f_equal (@rev str)) in E. rewrite rev_involutive in E.
    cbn [rev] in E. subst run.
    rewrite spaced_snoc, join_spaces_snoc, app_assoc.
    apply strip_app_space. reflexivity.
Qed.

Lemma nonempty_spaced (run : list str) : nonempty (spaced run) = nonempty run.
Proof.
  destruct run as [|a run]; [reflexivity|].
  unfold spaced. cbn [map concat]. destruct a; reflexivity.
Qed.

Lemma combine_loop_prefix (sentences pre combined : list str) (temp : str) :
  combine_loop sentences (pre ++ combined) temp
  = (pre ++ fst (combine_loop sentences combined temp),
     snd (combine_loop sentences combined temp)).
Proof.
  revert combined temp.
  induction sentences as [|s rest IH]; intros combined temp; cbn [combine_loop].
  - reflexivity.
  - destruct (len s <? 10); [apply IH|].
    destruct (nonempty temp); rewrite <- app_assoc; apply IH.
Qed.

Lemma combine_loop_shorts (shorts sentences combined : list str) (run : list str) :
  Forall (fun s => len s < 10) shorts ->
  combine_loop (shorts ++ sentences) combined (spaced run)
  = combine_loop sentences combined (spaced (run ++ shorts)).
Proof.
  intros Hs. revert run.
  induction Hs as [|s shorts Hs _ IH]; intros run.
  - rewrite app_nil_r. reflexivity.
  - cbn [app combine_loop].
    destruct (len s <? 10) eqn:E; [|lia].
    rewrite <- spaced_snoc, IH, <- app_assoc. reflexivity.
Qed.

(** A run of short entries followed by a long one becomes one entry. *)
Lemma combine_short_run (shorts : list str) (long : str) (rest : list str) :
  Forall (fun s => len s < 10) shorts ->
  10 <= len long ->
  combine_short (shorts ++ long :: rest)
  = strip (join_spaces (shorts ++ [long])) :: combine_short rest.
Proof.
  intros Hs Hl. unfold combine_short.
  change (@nil char) with (spaced []) at 1.
  rewrite combine_loop_shorts by assumption.
  cbn [app combine_loop].
  destruct (len long <? 10) eqn:E; [lia|].
  rewrite join_spaces_snoc, nonempty_spaced.
  assert (Hx : forall x t,
             (let '(c, t') := combine_loop rest ([] ++ [x]) t in
              if nonempty t' then c ++ [strip t'] else c)
             = x :: (let '(c, t') := combine_loop rest [] t in
                     if nonempty t' then c ++ [strip t'] else c)).
  { intros x t. change ([] ++ [x]) with ([x] ++ @nil str).
    rewrite combine_loop_prefix.
    destruct (combine_loop rest [] t) as [c t']. cbn [fst snd].
    destruct (nonempty t'); reflexivity. }
  destruct shorts as [|s shorts].
  - cbn [nonempty]. apply (Hx (strip long) (spaced [])).
  - cbn [nonempty]. apply Hx.
Qed.

(** A run of short entries with nothing after it becomes one entry. *)
Lemma combine_short_tail (shorts : list str) :
  Forall (fun s => len s < 10) shorts ->
  shorts <> [] ->
  combine_short shorts = [strip (join_spaces shorts)].
Proof.
  intros Hs Hne. unfold combine_short.
  change (@nil char) with (spaced []) at 1.
  rewrite <- (app_nil_r shorts) at 1.
  rewrite combine_loop_shorts by assumption.
  cbn [app combine_loop]. rewrite nonempty_spaced.
  destruct shorts; [contradiction|].
  cbn [nonempty app]. f_equal. apply strip_spaced. discriminate.
Qed.

Lemma nonempty_true {A} (l : list A) : nonempty l = true <-> l <> [].
Proof. destruct l; simpl; split; congruence. Qed.




Lemma backend_return (B : Backends) (current_tokenizer text : str)
  (value : list str) :
  backend_sentences B current_tokenizer text = Return value -> value = [text].
Proof.
  unfold backend_sentences, call.
  destruct (str_eqb current_tokenizer (of_string "nltk")).
  - destruct (import_nltk B); [|discriminate].
    destruct (sent_tokenize B text); discriminate.
  - destruct (str_eqb current_tokenizer (of_string "stanza")); [|discriminate].
    destruct (import_stanza B); [|discriminate].
    destruct (nlp B) as [pipeline|]; [destruct (pipeline text); discriminate|].
    intros [= <-]. reflexivity.
Qed.

Lemma obtain_sentences_text (B : Backends) (current_tokenizer text : str)
  (f : option tokenizer_fn) (poetic_mode preserve_line_breaks : bool) :
  fst (obtain_sentences B current_tokenizer text f poetic_mode
         preserve_line_breaks)
  = fallback_text text f poetic_mode preserve_line_breaks.
Proof.
  unfold obtain_sentences, fallback_text.
  destruct f; [reflexivity|].
  destruct poetic_mode; [destruct preserve_line_breaks|]; reflexivity.
Qed.

Lemma obtain_sentences_return (B : Backends) (current_tokenizer text : str)
  (f : option tokenizer_fn) (poetic_mode preserve_line_breaks : bool)
  (value : list str) :
  snd (obtain_sentences B current_tokenizer text f poetic_mode
         preserve_line_breaks) = Return value ->
  value = [fallback_text text f poetic_mode preserve_line_breaks].
Proof.
  unfold obtain_sentences, fallback_text.
  destruct f as [f|]; cbn [fst snd].
  - unfold call. destruct (f text); discriminate.
  - destruct poetic_mode; [destruct preserve_line_breaks|]; cbn [fst snd andb negb];
      try discriminate; apply backend_return.
Qed.

(** C7, amended. Whatever the backends, the callback and the modes, the
    adapter returns a list and the list has an entry; when obtaining the
    sentences raises, returns early or gives no sentence, the list is the
    text alone: the input text, except without a callback in poetic mode
    without line breaks, where it is the input text with its newlines
    replaced by spaces. *)
Theorem tokenize_sentences_fallback (B : Backends)
  (current_tokenizer text : str) (f : option tokenizer_fn)
  (poetic_mode preserve_line_breaks : bool) :
  exists l,
    _tokenize_sentences B current_tokenizer text f poetic_mode
      preserve_line_breaks = Ok l
    /\ l <> []
    /\ match snd (obtain_sentences B current_tokenizer text f poetic_mode
                    preserve_line_breaks) with
       | Sentences (_ :: _) => True
       | _ => l = [fallback_text text f poetic_mode preserve_line_breaks]
       end.
Proof.
  unfold _tokenize_sentences.
  pose proof (obtain_sentences_text B current_tokenizer text f poetic_mode
                preserve_line_breaks) as Htext.
  pose proof (obtain_sentences_return B current_tokenizer text f poetic_mode
                preserve_line_breaks) as Hret.
  destruct (obtain_sentences B current_tokenizer text f poetic_mode
              preserve_line_breaks) as [text' fl].
  cbn [fst snd] in *. subst text'.
  destruct fl as [[|s sentences] | value | e].
  - eexists. split; [reflexivity|]. split; [discriminate | reflexivity].
  - eexists. split; [reflexivity|]. split; [|exact I].
    destruct (nonempty (short_sentence_pass (s :: sentences))) eqn:E.
    + apply nonempty_true. exact E.
    + discriminate.
  - rewrite (Hret value eq_refl).
    eexists. split; [reflexivity|]. split; [discriminate | reflexivity].
  - eexists. split; [reflexivity|]. split; [discriminate | reflexivity].
Qed.

(** C7, as stated, fails. In poetic mode without line breaks, with no
    callback and Stanza not initialised, the fallback for a text of two
    lines is not the text it was given: the newline has become a space. *)
Lemma tokenize_fallback_poetic :
  _tokenize_sentences no_backend (of_string "stanza") [97; 10; 98]%N None
    true false
  = Ok [[97; 32; 98]%N]
  /\ [[97; 32; 98]%N] <> [[97; 10; 98]%N].
Proof. split; [reflexivity | discriminate]. Qed.

(** ** The generator, one character at a time *)

Section Step.
Context {L : PyLib}.
Variable B : Backends.
Variable cfg : config.

(** C3. When the buffer, with the character appended, is longer than
    [max_buffer_size], the iteration yields the cleaned slice of the buffer
    up to [max_buffer_size // 2] and nothing else, keeps the slice from
    there on as the buffer, takes 6 off the word count without going below
    0, and zeroes the tokenization counter and the distance to the last
    strong delimiter; for a limit that is not negative the two slices are
    the first [max_buffer_size // 2] characters and the characters after
    them. The tokenizer and the boundary heuristic play no part: the one
    event is the forced fragment. *)
Theorem forced_split (st : state) (c : char)
  (appended := lstrip (buffer st ++ [c]))
  (half := max_buffer_size cfg / 2) :
  leading_filtered cfg st c = false ->
  max_buffer_size cfg < len appended ->
  exists st',
    step B cfg st c
    = Ok (st', [Yield Forced (clean cfg (slice_to appended half))])
    /\ buffer st' = slice_from appended half
    /\ word_count st' = Z.max 0 (counted_words cfg st c - 6)
    /\ tokenization_counter st' = 0
    /\ chars_since_last_strong_delim st' = 0
    /\ (0 <= max_buffer_size cfg ->
        slice_to appended half = firstn (Z.to_nat half) appended
        /\ slice_from appended half = skipn (Z.to_nat half) appended).
Proof.
  intros Hf Hover. unfold step. rewrite Hf. cbv zeta.
  fold appended. fold half.
  destruct (max_buffer_size cfg <? len appended) eqn:E; [|lia].
  eexists. split; [reflexivity|]. cbn [buffer word_count tokenization_counter
                                       chars_since_last_strong_delim].
  repeat split; auto.
  - apply slice_to_firstn. subst half. split; [apply Z.div_pos; lia|].
    assert (max_buffer_size cfg / 2 <= max_buffer_size cfg)
      by (apply Z.div_le_upper_bound; lia).
    lia.
  - apply slice_from_skipn. subst half. split; [apply Z.div_pos; lia|].
    assert (max_buffer_size cfg / 2 <= max_buffer_size cfg)
      by (apply Z.div_le_upper_bound; lia).
    lia.
Qed.

(** C6, amended. In first-fragment mode with the quick yield enabled, take
    an iteration whose character is not skipped by the leading filter and
    whose buffer, with the character appended and leading whitespace
    stripped, is within [max_buffer_size], so that it is not split by force;
    let that buffer hold at least [minimum_first_fragment_length]
    characters, and let its last character be a fragment delimiter, or the
    character be whitespace and the word count, the character counted, have
    reached [force_first_fragment_after_words]. When the last character is
    a comma and the stripped buffer has fewer than 6 characters, the
    iteration yields nothing and keeps the buffer. Otherwise it yields the
    cleaned buffer and nothing else, empties the buffer, zeroes the word
    count, the tokenization counter and the distance to the last strong
    delimiter, raises the fragment count by one and leaves first-fragment
    mode unless [quick_yield_every_fragment] is set. *)
Theorem first_fragment_emission (st : state) (c last : char)
  (text := lstrip (buffer st ++ [c]))
  (words := counted_words cfg st c)
  (chars_since := counted_chars_since cfg st c) :
  is_first_sentence st = true ->
  quick_yield_single_sentence_fragment cfg = true ->
  leading_filtered cfg st c = false ->
  len text <= max_buffer_size cfg ->
  minimum_first_fragment_length cfg <= len text ->
  last_error text = Some last ->
  char_in last (sentence_fragment_delimiters cfg) = true
  \/ (isspace c = true /\ force_first_fragment_after_words cfg <= words) ->
  (last = COMMA /\ len (strip text) < 6 ->
   step B cfg st c = Ok (carried st text words chars_since, []))
  /\ (~ (last = COMMA /\ len (strip text) < 6) ->
      exists st',
        step B cfg st c = Ok (st', [Yield First (clean cfg text)])
        /\ buffer st' = []
        /\ word_count st' = 0
        /\ tokenization_counter st' = 0
        /\ chars_since_last_strong_delim st' = 0
        /\ fragment_count st' = fragment_count st + 1
        /\ is_first_sentence st' = quick_yield_every_fragment cfg).
Proof.
  intros Hfirst Hquick Hf Hmax Hlen Hlast Hcond.
  assert (Hidx : py_index text (-1) = Ok last).
  { apply last_error_split in Hlast as [l Hl]. rewrite Hl.
    apply py_index_last. }
  assert (Hc : char_in last (sentence_fragment_delims_set cfg)
               || isspace c
                  && (force_first_fragment_after_words cfg <=? words) = true).
  { destruct Hcond as [H | [H1 H2]].
    - unfold sentence_fragment_delims_set. rewrite H. reflexivity.
    - rewrite H1.
      destruct (force_first_fragment_after_words cfg <=? words) eqn:E3; [|lia].
      apply orb_true_r. }
  assert (Hstep : step B cfg st c
                  = if N.eqb last COMMA && (len (strip text) <? 6)
                    then Ok (carried st text words chars_since, [])
                    else Ok ({| buffer := [];
                                is_first_sentence :=
                                  quick_yield_every_fragment cfg;
                                word_count := 0;
                                last_delimiter_position :=
                                  last_delimiter_position st;
                                fragment_count := fragment_count st + 1;
                                tokenization_counter := 0;
                                chars_since_last_strong_delim := 0 |},
                             [Yield First (clean cfg text)])).
  { unfold step. rewrite Hf. cbv zeta.
    fold text. fold words. fold chars_since.
    destruct (max_buffer_size cfg <? len text) eqn:E; [lia|].
    unfold first_fragment_logic. rewrite Hfirst.
    destruct (minimum_first_fragment_length cfg <=? len text) eqn:E2; [|lia].
    unfold single_sentence_fragment. rewrite Hquick, orb_true_r. cbn [andb].
    rewrite Hidx. cbn [bind]. rewrite Hc.
    destruct (N.eqb last COMMA && (len (strip text) <? 6)); cbn [bind];
      [reflexivity|].
    destruct (quick_yield_every_fragment cfg); reflexivity. }
  split.
  - intros [-> Hshort]. rewrite Hstep.
    destruct (len (strip text) <? 6) eqn:E3; [reflexivity | lia].
  - intros Hn. rewrite Hstep.
    destruct (N.eqb last COMMA && (len (strip text) <? 6)) eqn:E3.
    + exfalso. apply Hn. apply andb_prop in E3 as [E3 E4].
      apply N.eqb_eq in E3. split; [exact E3 | lia].
    + eexists. split; [reflexivity|]. cbn. auto 10.
Qed.

End Step.

(** With a limit of 4 and [abcd] in the buffer, a fifth character splits
    off the first two. *)
Lemma forced_split_witness :
  exists st',
    step (L := basic_latin) no_backend
      (example_config 15 12 4 6 25 true None) (with_buffer (of_string "abcd"))
      101%N
    = Ok (st', [Yield Forced (of_string "ab")])
    /\ buffer st' = of_string "cde"
    /\ word_count st' = 0
    /\ tokenization_counter st' = 0
    /\ chars_since_last_strong_delim st' = 0.
Proof.
  destruct (forced_split (L := basic_latin) no_backend
              (example_config 15 12 4 6 25 true None)
              (with_buffer (of_string "abcd")) 101%N eq_refl eq_refl)
    as (st' & H1 & H2 & H3 & H4 & H5 & _).
  exists st'. repeat split; assumption.
Defined.

(** With [Hello wo] in the buffer, a full stop ends the first fragment. *)
Lemma first_fragment_emission_witness :
  exists st',
    step (L := basic_latin) no_backend default_config
      (with_buffer (of_string "Hello wo")) PERIOD
    = Ok (st', [Yield First (of_string "Hello wo.")])
    /\ buffer st' = []
    /\ word_count st' = 0
    /\ is_first_sentence st' = false.
Proof.
  destruct (proj2 (first_fragment_emission (L := basic_latin) no_backend
                     default_config (with_buffer (of_string "Hello wo"))
                     PERIOD PERIOD eq_refl eq_refl eq_refl
                     ltac:(discriminate) ltac:(discriminate) eq_refl
                     (or_introl eq_refl)))
    as (st' & Hstep & Hbuf & Hwords & _ & _ & _ & Hmode).
  { intros [H _]. discriminate H. }
  exists st'. repeat split; assumption.
Defined.

(** C6, as stated, fails. Under the defaults the stream of 700 letters
    leaves them in the buffer, in first-fragment mode. A full stop then
    makes a buffer of 701 characters that ends with a fragment delimiter and
    is longer than the minimum first-fragment length; but it is also longer
    than [max_buffer_size], and that is tested first: the iteration yields
    the first 350 letters, keeps the other 351 characters, and stays in
    first-fragment mode. *)
Lemma first_fragment_preempted :
  let st := with_counters (repeat 97%N 700) (-1) 0 700 in
  let text := lstrip (buffer st ++ [PERIOD]) in
  run (L := basic_latin) no_backend default_config initial (repeat 97%N 700)
  = Ok (st, [])
  /\ is_first_sentence st = true
  /\ quick_yield_single_sentence_fragment default_config = true
  /\ minimum_first_fragment_length default_config <= len text
  /\ last_error text = Some PERIOD
  /\ char_in PERIOD (sentence_fragment_delimiters default_config) = true
  /\ step (L := basic_latin) no_backend default_config st PERIOD
     = Ok ({| buffer := repeat 97%N 350 ++ [PERIOD];
              is_first_sentence := true; word_count := 0;
              last_delimiter_position := -1; fragment_count := 0;
              tokenization_counter := 0;
              chars_since_last_strong_delim := 0 |},
           [Yield Forced (repeat 97%N 350)]).
Proof.
  cbv zeta. repeat split; try reflexivity; try discriminate;
    vm_compute; reflexivity.
Qed.

(** ** The generator, over a stream *)

Lemma py_index_last_inv {A} (l : list A) (x : A) :
  py_index l (-1) = Ok x -> exists front, l = front ++ [x].
Proof.
  intros H. destruct (last_error l) as [y|] eqn:E.
  - apply last_error_split in E as [front ->].
    rewrite py_index_last in H. injection H as ->. eauto.
  - apply last_error_nil_inv in E. subst l. discriminate.
Qed.

Lemma slice_to_minus_one {A} (front : list A) (x : A) :
  slice_to (front ++ [x]) (-1) = front.
Proof.
  unfold slice_to, clamp. rewrite len_app. change (len [x]) with 1.
  change (-1 <? 0) with true. cbv iota.
  replace (Z.to_nat (Z.max 0 (len front + 1 + -1))) with (length front)
    by (unfold len; lia).
  rewrite firstn_app, Nat.sub_diag, firstn_all. cbn. apply app_nil_r.
Qed.

Section Loop.
Context {L : PyLib}.
Variable B : Backends.
Variable cfg : config.

Ltac branch :=
  match goal with
  | |- context [bind ?m _] => destruct m eqn:?; cbn [bind]
  | |- context [if ?b then _ else _] => destruct b eqn:?
  end.

Lemma lookback_outcome (st st' : state) (c : char) (wc cs : Z)
  (evs : list event) :
  leading_filtered cfg st c = false ->
  len (appended st c) <= max_buffer_size cfg ->
  lookback B cfg st c (appended st c) wc cs = Ok (st', evs) ->
  outcome B cfg st c st' evs.
Proof.
  intros Hf Hmax. unfold lookback. cbv zeta.
  destruct (context_size cfg <? len (appended st c));
    [|intros [= <- <-]; apply accumulated; auto].
  destruct (py_index (appended st c) (- context_size cfg)) as [d|] eqn:Hd;
    cbn [bind]; [|discriminate].
  match goal with
  | |- context [if (if ?s then ?a else ?b) then _ else _] =>
      destruct (if s then a else b)
  end; [intros [= <- <-]; apply accumulated; auto|].
  destruct (char_in d (full_sentence_delims_set cfg) || char_in d (of_string ";:,"));
    [|intros [= <- <-]; apply accumulated; auto].
  destruct (context_size cfg - 1 <? min_chars_after_delimiter cfg) eqn:Hgate;
    [intros [= <- <-]; apply accumulated; auto|].
  destruct (_is_likely_sentence_boundary (appended st c)
              (len (appended st c) - context_size cfg)) as [likely|];
    cbn [bind]; [|discriminate].
  destruct (negb likely); [intros [= <- <-]; apply accumulated; auto|].
  match goal with
  | |- context [bind ?m _] => destruct m as [interval|]; cbn [bind]
  end; [|discriminate].
  destruct (tokenization_counter st + 1 <? interval);
    [intros [= <- <-]; apply accumulated; auto|].
  destruct (tokenize B cfg (appended st c)) as [sentences|] eqn:Htok;
    cbn [bind]; [|discriminate].
  destruct (1 <? len sentences) eqn:Hmany;
    [|intros [= <- <-]; apply asked; auto; lia].
  destruct (minimum_sentence_length cfg
            <=? total_length (slice_to sentences (-1)));
    [|intros [= <- <-]; apply asked; auto; lia].
  destruct (py_index sentences (-1)) as [last_sentence|] eqn:Hlast;
    cbn [bind]; [|discriminate].
  apply py_index_last_inv in Hlast as [front ->].
  rewrite slice_to_minus_one.
  intros [= <- <-].
  apply (confirmed B cfg st c _ front last_sentence); auto.
  - lia.
  - intros ->. cbn in Hmany. discriminate.
  - cbn [buffer]. branch; auto.
Qed.

(** What the logic for the first fragment can decide. *)
Lemma first_fragment_cases (st : state) (c : char) (buf : str) (wc cs : Z) :
  match first_fragment_logic cfg st c buf wc cs with
  | Ok (Some (st', evs)) =>
      (st' = carried st buf wc cs /\ evs = [])
      \/ (minimum_first_fragment_length cfg <= len buf
          /\ evs = [Yield First (clean cfg buf)]
          /\ buffer st' = []
          /\ tokenization_counter st' = 0)
  | _ => True
  end.
Proof.
  unfold first_fragment_logic.
  destruct (is_first_sentence st
            && (minimum_first_fragment_length cfg <=? len buf)
            && single_sentence_fragment cfg) eqn:Hfirst; [|exact I].
  destruct (py_index buf (-1)) as [last|]; cbn [bind]; [|exact I].
  destruct (char_in last (sentence_fragment_delims_set cfg)
            || isspace c && (force_first_fragment_after_words cfg <=? wc));
    [|exact I].
  destruct (N.eqb last COMMA && (len (strip buf) <? 6)).
  - left. auto.
  - right. apply andb_prop in Hfirst as [Hfirst _].
    apply andb_prop in Hfirst as [_ Hfirst].
    repeat split. lia.
Qed.

Lemma step_outcome (st st' : state) (c : char) (evs : list event) :
  step B cfg st c = Ok (st', evs) -> outcome B cfg st c st' evs.
Proof.
  unfold step. destruct (leading_filtered cfg st c) eqn:Hf.
  - intros [= <- <-]. apply filtered_out. exact Hf.
  - cbv zeta. fold (appended st c).
    destruct (max_buffer_size cfg <? len (appended st c)) eqn:Hmax.
    + intros [= <- <-]. apply split_by_force; auto. lia.
    + assert (Hle : len (appended st c) <= max_buffer_size cfg) by lia.
      pose proof (first_fragment_cases st c (appended st c)
                    (counted_words cfg st c) (counted_chars_since cfg st c))
        as Hcases.
      destruct (first_fragment_logic cfg st c (appended st c)
                  (counted_words cfg st c) (counted_chars_since cfg st c))
        as [[[st1 evs1]|]|]; cbn [bind]; [| |discriminate].
      * intros [= <- <-].
        destruct Hcases as [[-> ->] | (Hlen & -> & Hbuf & _)].
        -- apply accumulated; auto.
        -- apply first_yielded; auto.
      * branch.
        -- intros [= <- <-]. apply accumulated; auto.
        -- apply lookback_outcome; auto.
Qed.

(** An invariant of the state that every iteration keeps holds after the
    loop; a property of the events of every iteration holds of all events. *)
Lemma run_invariant (I : state -> Prop) (P : event -> Prop) :
  (forall st c st' evs,
      I st -> step B cfg st c = Ok (st', evs) -> I st' /\ Forall P evs) ->
  forall chars st st' evs,
    I st -> run B cfg st chars = Ok (st', evs) -> I st' /\ Forall P evs.
Proof.
  intros Hstep. induction chars as [|c chars IH]; intros st st' evs HI;
    cbn [run].
  - intros [= <- <-]. auto.
  - destruct (step B cfg st c) as [[st1 evs1]|] eqn:E1; cbn [bind fst snd];
      [|discriminate].
    destruct (run B cfg st1 chars) as [[st2 evs2]|] eqn:E2; cbn [bind fst snd];
      [|discriminate].
    intros [= <- <-].
    destruct (Hstep _ _ _ _ HI E1) as [HI1 HP1].
    destruct (IH _ _ _ HI1 E2) as [HI2 HP2].
    split; [exact HI2 | apply Forall_app; auto].
Qed.

(** *** The lookback guard under the defaults *)

Lemma dead_step_events (st st' : state) (c : char) (evs : list event) :
  lookback_dead cfg ->
  step B cfg st c = Ok (st', evs) -> Forall quick_or_forced evs.
Proof.
  unfold lookback_dead. intros Hdead Hstep.
  destruct (step_outcome _ _ _ _ Hstep); try lia;
    repeat constructor.
Qed.

Lemma dead_lookback_counter (st st' : state) (c : char) (wc cs : Z)
  (buf : str) (evs : list event) :
  lookback_dead cfg ->
  lookback B cfg st c buf wc cs = Ok (st', evs) ->
  tokenization_counter st' = tokenization_counter st.
Proof.
  unfold lookback_dead, lookback. intros Hdead. cbv zeta.
  destruct (context_size cfg - 1 <? min_chars_after_delimiter cfg) eqn:E;
    [|lia].
  repeat branch; try discriminate; intros [= <- <-]; reflexivity.
Qed.

Lemma dead_step_counter (st st' : state) (c : char) (evs : list event) :
  lookback_dead cfg ->
  tokenization_counter st = 0 ->
  step B cfg st c = Ok (st', evs) ->
  tokenization_counter st' = 0.
Proof.
  intros Hdead Hzero. unfold step. cbv zeta.
  destruct (leading_filtered cfg st c); [intros [= <- <-]; exact Hzero|].
  destruct (max_buffer_size cfg <? len (lstrip (buffer st ++ [c])));
    [intros [= <- <-]; reflexivity|].
  pose proof (first_fragment_cases st c (lstrip (buffer st ++ [c]))
                (counted_words cfg st c) (counted_chars_since cfg st c))
    as Hcases.
  destruct (first_fragment_logic cfg st c (lstrip (buffer st ++ [c]))
              (counted_words cfg st c) (counted_chars_since cfg st c))
    as [[[st1 evs1]|]|]; cbn [bind]; [| |discriminate].
  - intros [= <- <-].
    destruct Hcases as [[-> ->] | (_ & _ & _ & Htc)]; [exact Hzero | exact Htc].
  - branch.
    + intros [= <- <-]. exact Hzero.
    + intros Hlook. rewrite <- Hzero.
      eapply dead_lookback_counter; eauto.
Qed.

(** C10. With [context_size = 15] and [min_chars_after_delimiter = 25] the
    lookback guard compares 14 with 25 and sends every iteration back to the
    loop head: an iteration emits nothing but a first fragment or a forced
    fragment, never calls the tokenizer, and leaves the tokenization counter
    at 0; over a whole stream, the tokenizer is called only by the final
    drain. *)
Theorem default_lookback_never_passes
  (Hcontext : context_size cfg = 15)
  (Hafter : min_chars_after_delimiter cfg = 25) :
  (context_size cfg - 1 <? min_chars_after_delimiter cfg) = true
  /\ (forall chars st evs,
        run B cfg initial chars = Ok (st, evs) ->
        Forall quick_or_forced evs /\ tokenization_counter st = 0)
  /\ (forall generator evs,
        generate_sentences_async B cfg generator = Ok evs ->
        exists st midstream final,
          run B cfg initial (_generate_characters generator) = Ok (st, midstream)
          /\ finish B cfg st = Ok final
          /\ evs = midstream ++ final
          /\ Forall quick_or_forced midstream).
Proof.
  assert (Hdead : lookback_dead cfg) by (unfold lookback_dead; lia).
  assert (Hrun : forall chars st evs,
             run B cfg initial chars = Ok (st, evs) ->
             Forall quick_or_forced evs /\ tokenization_counter st = 0).
  { intros chars st evs H. apply and_comm.
    apply (run_invariant (fun s => tokenization_counter s = 0)
             quick_or_forced) with (chars := chars) (st := initial);
      [|reflexivity | exact H].
    intros s c s' e Hs He. split.
    - eapply dead_step_counter; eauto.
    - eapply dead_step_events; eauto. }
  split; [rewrite Hcontext, Hafter; reflexivity | split; [exact Hrun|]].
  intros generator evs. unfold generate_sentences_async.
  destruct (run B cfg initial (_generate_characters generator))
    as [[st midstream]|] eqn:E; cbn [bind fst snd]; [|discriminate].
  destruct (finish B cfg st) as [final|] eqn:E2; cbn [bind]; [|discriminate].
  intros [= <-]. exists st, midstream, final.
  repeat split; auto. apply (Hrun _ _ _ E).
Qed.

(** *** The size of the buffer *)

Lemma appended_len (st : state) (c : char) :
  len (appended st c) <= len (buffer st) + 1.
Proof.
  unfold appended. pose proof (lstrip_len (buffer st ++ [c])) as H.
  rewrite len_app in H. exact H.
Qed.

Lemma step_bounded (st st' : state) (c : char) (evs : list event) :
  2 <= max_buffer_size cfg ->
  lookback_dead cfg \/ tokenizer_shrinks B cfg ->
  len (buffer st) <= max_buffer_size cfg ->
  step B cfg st c = Ok (st', evs) ->
  len (buffer st') <= max_buffer_size cfg.
Proof.
  intros Hmax Htok Hst Hstep. pose proof (appended_len st c) as Happ.
  destruct (step_outcome _ _ _ _ Hstep)
    as [ | st' _ Hover Hbuf | st' _ Hle Hbuf | st' _ _ _ Hbuf
       | st' _ Hle _ Hbuf | st' front last_sentence _ Hle Hgate Hsent Hfront Hbuf ].
  - exact Hst.
  - rewrite Hbuf.
    assert (Hhalf : 1 <= max_buffer_size cfg / 2 <= max_buffer_size cfg).
    { split; [apply Z.div_le_lower_bound; lia
             | apply Z.div_le_upper_bound; lia]. }
    rewrite slice_from_skipn by lia.
    unfold len in *. rewrite length_skipn. lia.
  - rewrite Hbuf. exact Hle.
  - rewrite Hbuf. cbn. lia.
  - rewrite Hbuf. exact Hle.
  - destruct Htok as [Hdead | Hshrink]; [unfold lookback_dead in Hdead; lia|].
    specialize (Hshrink _ _ _ Hsent Hfront).
    destruct Hbuf as [-> | ->]; [lia|].
    rewrite len_app. change (len [SPACE]) with 1. lia.
Qed.

(** C2, amended. With [max_buffer_size] at least 2, and a lookback guard
    that cannot pass or a tokenizer adapter whose last sentence is shorter
    than its text, the buffer is never longer than [max_buffer_size] at the
    end of an iteration: it is not after any number of characters read. *)
Theorem buffer_bounded (seen : str) (st : state) (evs : list event) :
  2 <= max_buffer_size cfg ->
  lookback_dead cfg \/ tokenizer_shrinks B cfg ->
  run B cfg initial seen = Ok (st, evs) ->
  len (buffer st) <= max_buffer_size cfg.
Proof.
  intros Hmax Htok Hrun.
  apply (run_invariant (fun s => len (buffer s) <= max_buffer_size cfg)
           (fun _ => True)) with (chars := seen) (st := initial) (evs := evs);
    [| cbn; lia | exact Hrun].
  intros s c s' e Hs He. split.
  - eapply step_bounded; eauto.
  - apply Forall_forall. auto.
Qed.

(** *** The length of the fragments *)

Lemma validated_spec (front : list str) :
  (forall e, In e (validated cfg front) ->
     exists sentence,
       In sentence front
       /\ e = Yield Validated (clean cfg sentence)
       /\ minimum_sentence_length cfg / 2 <= len sentence)
  /\ fragments (validated cfg front)
     = map (clean cfg)
         (filter (fun s => minimum_sentence_length cfg / 2 <=? len s) front).
Proof.
  unfold validated. induction front as [|s front [IH1 IH2]]; cbn [flat_map].
  - split; [intros e [] | reflexivity].
  - cbn [filter].
    destruct (minimum_sentence_length cfg / 2 <=? len s) eqn:E; cbn [app].
    + split.
      * intros e [<- | He].
        -- exists s. repeat split; [left; reflexivity | lia].
        -- destruct (IH1 e He) as (x & Hx & H). exists x.
           split; [right; exact Hx | exact H].
      * cbn [fragments flat_map map app] in *. f_equal. exact IH2.
    + split; [|exact IH2].
      intros e He. destruct (IH1 e He) as (x & Hx & H). exists x.
      split; [right; exact Hx | exact H].
Qed.

Lemma step_length_tested (st st' : state) (c : char) (evs : list event) :
  step B cfg st c = Ok (st', evs) ->
  forall e, In e evs -> length_tested B cfg st c e.
Proof.
  intros Hstep.
  destruct (step_outcome _ _ _ _ Hstep)
    as [ | st' _ Hover _ | | st' _ _ Hlen _ | | st' front last_sentence
                                                  _ _ _ Hsent _ _ ];
    intros e He; cbn [In] in He.
  - contradiction.
  - destruct He as [<- | []]. split; [reflexivity | exact Hover].
  - contradiction.
  - destruct He as [<- | []]. split; [reflexivity | exact Hlen].
  - destruct He as [<- | []]. reflexivity.
  - destruct He as [<- | He]; [reflexivity|].
    destruct (proj1 (validated_spec front) e He) as (s & Hs & -> & Hlen).
    exists front, last_sentence, s. auto.
Qed.

(** An event of a run is an event of one of its iterations. *)
Lemma run_event (chars : str) :
  forall st st' evs e,
    run B cfg st chars = Ok (st', evs) ->
    In e evs ->
    exists before c after st0 evs0 st1 evs1,
      chars = before ++ c :: after
      /\ run B cfg st before = Ok (st0, evs0)
      /\ step B cfg st0 c = Ok (st1, evs1)
      /\ In e evs1.
Proof.
  induction chars as [|c chars IH]; intros st st' evs e; cbn [run].
  - intros [= <- <-] [].
  - destruct (step B cfg st c) as [[s1 e1]|] eqn:E1; cbn [bind fst snd];
      [|discriminate].
    destruct (run B cfg s1 chars) as [[s2 e2]|] eqn:E2; cbn [bind fst snd];
      [|discriminate].
    intros [= <- <-] He. apply in_app_or in He as [He | He].
    + exists [], c, chars, st, [], s1, e1. repeat split; auto.
    + destruct (IH _ _ _ _ E2 He)
        as (before & c' & after & st0 & evs0 & st1 & evs1 & -> & Hrun & Hstep
            & Hin).
      exists (c :: before), c', after, st0, (e1 ++ evs0), st1, evs1.
      repeat split; auto.
      cbn [run]. rewrite E1. cbn [bind fst snd]. rewrite Hrun. reflexivity.
Qed.

(** The final loop: every fragment it yields is the cleaned form of a join
    buffer that reached the minimum sentence length, and the join buffers
    with what is left over make up the sentences, whitespace aside. *)
Lemma drain_spec (sentences : list str) :
  forall sentence_buffer evs remaining,
    drain cfg sentences sentence_buffer = (evs, remaining) ->
    exists pieces,
      evs = map (fun p => Yield Final (clean cfg p)) pieces
      /\ Forall (fun p => minimum_sentence_length cfg <= len p) pieces
      /\ squash (concat pieces ++ remaining)
         = squash (sentence_buffer ++ concat sentences).
Proof.
  induction sentences as [|s rest IH]; intros sb evs remaining; cbn [drain].
  - intros [= <- <-]. exists []. repeat split; [constructor|].
    cbn. rewrite app_nil_r. reflexivity.
  - destruct (len (sb ++ s) <? minimum_sentence_length cfg) eqn:E.
    + intros H. destruct (IH _ _ _ H) as (pieces & H1 & H2 & H3).
      exists pieces. repeat split; auto.
      rewrite H3. cbn [concat]. rewrite !squash_app. cbn. rewrite app_nil_r.
      rewrite <- app_assoc. reflexivity.
    + destruct (drain cfg rest []) as [evs' remaining'] eqn:E2.
      intros [= <- <-]. destruct (IH _ _ _ E2) as (pieces & H1 & H2 & H3).
      exists ((sb ++ s) :: pieces). repeat split.
      * cbn [map]. f_equal. exact H1.
      * constructor; [lia | exact H2].
      * cbn [concat]. rewrite <- (app_assoc (sb ++ s)).
        rewrite (squash_app (sb ++ s)), H3. cbn [app].
        rewrite <- squash_app, <- app_assoc. reflexivity.
Qed.

(** The final loop again, by the sentences that it joins; [joined] are the
    sentences already in the join buffer. *)
Lemma drain_groups (sentences : list str) :
  forall joined evs remaining,
    (joined <> [] -> len (join_spaces joined) < minimum_sentence_length cfg) ->
    drain cfg sentences (spaced joined) = (evs, remaining) ->
    exists groups rest,
      joined ++ sentences = concat groups ++ rest
      /\ evs = map (fun g => Yield Final (clean cfg (join_spaces g))) groups
      /\ remaining = spaced rest
      /\ Forall (fun g => g <> []
                          /\ minimum_sentence_length cfg <= len (join_spaces g))
           groups
      /\ (rest <> [] -> len (join_spaces rest) < minimum_sentence_length cfg).
Proof.
  induction sentences as [|s sentences IH]; intros joined evs remaining Hj;
    cbn [drain].
  - intros [= <- <-]. exists [], joined. rewrite app_nil_r.
    repeat split; auto.
  - rewrite <- join_spaces_snoc.
    destruct (len (join_spaces (joined ++ [s])) <? minimum_sentence_length cfg)
      eqn:E.
    + rewrite join_spaces_snoc, <- app_assoc, <- spaced_snoc. intros H.
      destruct (IH (joined ++ [s]) _ _ ltac:(intros _; lia) H)
        as (groups & rest & H1 & H2 & H3 & H4 & H5).
      exists groups, rest. rewrite <- app_assoc in H1. auto.
    + destruct (drain cfg sentences []) as [evs' remaining'] eqn:E2.
      intros [= <- <-].
      destruct (IH [] _ _ ltac:(intros K; contradiction) E2)
        as (groups & rest & H1 & H2 & H3 & H4 & H5).
      cbn [app] in H1.
      exists ((joined ++ [s]) :: groups), rest. repeat split; auto.
      * cbn [concat]. rewrite <- !app_assoc, <- H1. reflexivity.
      * cbn [map]. f_equal. exact H2.
      * constructor; [|exact H4].
        split; [destruct joined; discriminate | lia].
Qed.

Lemma spaced_nonempty (rest : list str) :
  nonempty (spaced rest) = nonempty rest.
Proof.
  destruct rest as [|s rest]; [reflexivity|].
  unfold spaced. cbn [map concat]. destruct s; reflexivity.
Qed.

(** C9, amended. Strict mode or not. A first fragment is the cleaned buffer
    of the iteration that yields it, and that buffer has at least
    [minimum_first_fragment_length] characters. A fragment of the
    confirmation branch is the cleaned form of a sentence, of at least
    [minimum_sentence_length // 2] characters, that the adapter returned
    before the last one for the buffer of the iteration. The final drain
    asks the adapter about the buffer that is left and yields the cleaned
    forms of join buffers, each made of consecutive sentences of the adapter
    with a space between them and at least [minimum_sentence_length] long,
    and then, if sentences are left, these with a space after each,
    although joined they are shorter than [minimum_sentence_length]. *)
Theorem fragment_lengths (seen : str) (st : state) (evs : list event) :
  run B cfg initial seen = Ok (st, evs) ->
  (forall e, In e evs ->
     exists before c after st0 evs0,
       seen = before ++ c :: after
       /\ run B cfg initial before = Ok (st0, evs0)
       /\ length_tested B cfg st0 c e)
  /\ forall final,
      finish B cfg st = Ok final ->
      (buffer st = [] /\ final = [])
      \/ exists sentences drain_events,
           tokenize B cfg (buffer st) = Ok sentences
           /\ final = Tokenize (buffer st) :: drain_events
           /\ drained cfg sentences drain_events.
Proof.
  intros Hrun. split.
  - intros e He.
    destruct (run_event _ _ _ _ _ Hrun He)
      as (before & c & after & st0 & evs0 & st1 & evs1 & Hseen & Hbefore
          & Hstep & Hin).
    exists before, c, after, st0, evs0. repeat split; auto.
    eapply step_length_tested; eauto.
  - intros final. unfold finish.
    destruct (buffer st) as [|b0 rest0] eqn:Hbuf; cbn [nonempty];
      [intros [= <-]; left; auto|].
    destruct (tokenize B cfg (b0 :: rest0)) as [sentences|]; cbn [bind];
      [|discriminate].
    destruct (drain cfg sentences []) as [evs' remaining] eqn:E.
    intros [= <-]. right.
    destruct (drain_groups sentences [] _ _ ltac:(intros K; contradiction) E)
      as (groups & rest & H1 & H2 & H3 & H4 & H5).
    cbn [app] in H1.
    exists sentences, (evs' ++ if nonempty remaining
                              then [Yield Final (clean cfg remaining)] else []).
    repeat split.
    exists groups, rest. subst evs' remaining. rewrite spaced_nonempty.
    repeat split; auto.
Qed.

(** *** Nothing lost, nothing made up *)

Lemma fragments_app (evs1 evs2 : list event) :
  fragments (evs1 ++ evs2) = fragments evs1 ++ fragments evs2.
Proof. apply flat_map_app. Qed.

Lemma squash_concat_strip (pieces : list str) :
  squash (concat (map strip pieces)) = squash (concat pieces).
Proof.
  induction pieces as [|p pieces IH]; [reflexivity|].
  cbn [map concat]. rewrite !squash_app, squash_strip, IH. reflexivity.
Qed.

Lemma filter_all {A} (p : A -> bool) (l : list A) :
  (forall x, In x l -> p x = true) -> filter p l = l.
Proof.
  induction l as [|x l IH]; intros H; [reflexivity|].
  cbn [filter]. rewrite (H x (or_introl eq_refl)). f_equal.
  apply IH. intros y Hy. apply H. right. exact Hy.
Qed.

(** One iteration: the raw texts behind the fragments, followed by the new
    buffer, are the old buffer, followed by the character unless the
    leading filter skipped it. *)
Lemma step_complete (st st' : state) (c : char) (evs : list event) :
  tokenizer_faithful B cfg ->
  lookback_dead cfg \/ confirmed_sentences_long B cfg ->
  step B cfg st c = Ok (st', evs) ->
  exists pieces,
    fragments evs = map (clean cfg) pieces
    /\ squash (concat pieces ++ buffer st')
       = squash (buffer st ++ if leading_filtered cfg st c then [] else [c]).
Proof.
  intros Hfaith Hlong Hstep.
  assert (Happ : squash (appended st c) = squash (buffer st ++ [c]))
    by apply squash_lstrip.
  destruct (step_outcome _ _ _ _ Hstep)
    as [ Hf | st' Hf _ Hbuf | st' Hf _ Hbuf | st' Hf _ _ Hbuf
       | st' Hf _ _ Hbuf
       | st' front last_sentence Hf _ Hgate Hsent Hfront Hbuf ];
    rewrite Hf.
  - exists []. split; [reflexivity|]. rewrite app_nil_r. reflexivity.
  - exists [slice_to (appended st c) (max_buffer_size cfg / 2)].
    split; [reflexivity|].
    rewrite Hbuf. cbn [concat]. rewrite app_nil_r, slice_to_from. exact Happ.
  - exists []. split; [reflexivity|]. rewrite Hbuf. exact Happ.
  - exists [appended st c]. split; [reflexivity|].
    rewrite Hbuf. cbn [concat]. rewrite !app_nil_r. exact Happ.
  - exists []. split; [reflexivity|]. rewrite Hbuf. exact Happ.
  - destruct Hlong as [Hdead | Hlong]; [unfold lookback_dead in Hdead; lia|].
    exists front. split.
    + cbn [fragments flat_map app].
      change (flat_map _ (validated cfg front))
        with (fragments (validated cfg front)).
      rewrite (proj2 (validated_spec front)). f_equal.
      apply filter_all. intros s Hs.
      specialize (Hlong _ _ _ _ Hsent Hs). lia.
    + rewrite <- Happ, <- (Hfaith _ _ Hsent), concat_app. cbn [concat].
      rewrite app_nil_r.
      destruct Hbuf as [-> | ->]; [reflexivity|].
      rewrite !squash_app. cbn. rewrite app_nil_r. reflexivity.
Qed.

Lemma run_complete (chars : str) :
  tokenizer_faithful B cfg ->
  lookback_dead cfg \/ confirmed_sentences_long B cfg ->
  forall st st' evs,
    run B cfg st chars = Ok (st', evs) ->
    exists pieces kept,
      kept_characters B cfg st chars = Ok kept
      /\ fragments evs = map (clean cfg) pieces
      /\ squash (concat pieces ++ buffer st') = squash (buffer st ++ kept).
Proof.
  intros Hfaith Hlong.
  induction chars as [|c chars IH]; intros st st' evs;
    cbn [run kept_characters].
  - intros [= <- <-]. exists [], []. repeat split.
    rewrite app_nil_r. reflexivity.
  - destruct (step B cfg st c) as [[st1 evs1]|] eqn:E1; cbn [bind fst snd];
      [|discriminate].
    destruct (run B cfg st1 chars) as [[st2 evs2]|] eqn:E2; cbn [bind fst snd];
      [|discriminate].
    intros [= <- <-].
    destruct (step_complete _ _ _ _ Hfaith Hlong E1) as (p1 & A1 & C1).
    destruct (IH _ _ _ E2) as (p2 & k2 & K2 & A2 & C2).
    rewrite K2. cbn [bind].
    exists (p1 ++ p2),
      (if leading_filtered cfg st c then k2 else c :: k2).
    repeat split.
    + rewrite fragments_app, map_app, A1, A2. reflexivity.
    + rewrite concat_app, <- app_assoc, squash_app, C2.
      rewrite <- squash_app, app_assoc, squash_app, C1.
      rewrite <- squash_app, <- app_assoc.
      destruct (leading_filtered cfg st c); reflexivity.
Qed.

(** With the leading filter off, every character is kept. *)
Lemma kept_characters_unfiltered (chars : str) :
  filter_first_non_alnum_characters cfg = false ->
  forall st kept, kept_characters B cfg st chars = Ok kept -> kept = chars.
Proof.
  intros Hoff. induction chars as [|c chars IH]; intros st kept;
    cbn [kept_characters].
  - intros [= <-]. reflexivity.
  - destruct (step B cfg st c) as [[st1 evs1]|]; cbn [bind fst snd];
      [|discriminate].
    destruct (kept_characters B cfg st1 chars) as [k|] eqn:E; cbn [bind];
      [|discriminate].
    unfold leading_filtered. rewrite Hoff, andb_false_r. cbn [andb].
    intros [= <-]. f_equal. eapply IH. exact E.
Qed.

Lemma finish_complete (st : state) (final : list event) :
  tokenizer_faithful B cfg ->
  finish B cfg st = Ok final ->
  exists pieces,
    fragments final = map (clean cfg) pieces
    /\ squash (concat pieces) = squash (buffer st).
Proof.
  intros Hfaith. unfold finish.
  destruct (nonempty (buffer st)) eqn:Hne.
  - destruct (tokenize B cfg (buffer st)) as [sentences|] eqn:Htok;
      cbn [bind]; [|discriminate].
    destruct (drain cfg sentences []) as [evs remaining] eqn:E.
    intros [= <-].
    destruct (drain_spec _ _ _ _ E) as (pieces & H1 & _ & H3).
    cbn [app] in H3. rewrite (Hfaith _ _ Htok) in H3. subst evs.
    assert (Hfr : forall ps, fragments (map (fun p => Yield Final (clean cfg p)) ps)
                             = map (clean cfg) ps).
    { induction ps as [|p ps IHps]; [reflexivity|].
      cbn [map fragments flat_map app] in *. f_equal. exact IHps. }
    exists (pieces ++ if nonempty remaining then [remaining] else []).
    cbn [fragments flat_map app]. split.
    + change (flat_map _ ?l) with (fragments l).
      rewrite fragments_app, Hfr, map_app.
      destruct (nonempty remaining); reflexivity.
    + rewrite <- H3, concat_app.
      destruct remaining; cbn [nonempty concat]; rewrite ?app_nil_r;
        reflexivity.
  - intros [= <-]. exists []. split; [reflexivity|].
    destruct (buffer st); [reflexivity | discriminate].
Qed.

(** C1, amended. When the sentences that the tokenizer adapter returns make
    up its text, whitespace aside, and either the lookback guard cannot pass
    or the sentences returned before the last are at least
    [minimum_sentence_length // 2] long, a run that completes emits the
    cleaned forms of raw texts that together, whitespace aside, are the
    characters that the loop appended to the buffer, in their order. These
    are the characters of the input but for those that the leading filter
    skipped, each of them neither alphanumeric nor an opening character and
    met with an empty buffer; they are the whole input when the filter is
    off. With emoji cleaning off, the same holds of the fragments
    themselves. *)
Theorem output_complete (generator : list str) (evs : list event) :
  tokenizer_faithful B cfg ->
  lookback_dead cfg \/ confirmed_sentences_long B cfg ->
  generate_sentences_async B cfg generator = Ok evs ->
  exists pieces kept,
    kept_characters B cfg initial (concat generator) = Ok kept
    /\ fragments evs = map (clean cfg) pieces
    /\ squash (concat pieces) = squash kept
    /\ (cleanup_text_emojis cfg = false ->
        squash (concat (fragments evs)) = squash kept)
    /\ (filter_first_non_alnum_characters cfg = false ->
        kept = concat generator).
Proof.
  intros Hfaith Hlong. unfold generate_sentences_async, _generate_characters.
  destruct (run B cfg initial (concat generator)) as [[st midstream]|] eqn:E1;
    cbn [bind fst snd]; [|discriminate].
  destruct (finish B cfg st) as [final|] eqn:E2; cbn [bind]; [|discriminate].
  intros [= <-].
  destruct (run_complete _ Hfaith Hlong _ _ _ E1)
    as (p1 & kept & K1 & A1 & C1).
  destruct (finish_complete _ _ Hfaith E2) as (p2 & A2 & C2).
  cbn [buffer initial app] in C1.
  assert (Hall : squash (concat (p1 ++ p2)) = squash kept).
  { rewrite concat_app, squash_app, C2, <- squash_app. exact C1. }
  assert (Hfr : fragments (midstream ++ final) = map (clean cfg) (p1 ++ p2)).
  { rewrite fragments_app, map_app, A1, A2. reflexivity. }
  exists (p1 ++ p2), kept. repeat split; auto.
  - intros Hclean. rewrite Hfr, <- Hall.
    unfold clean, _clean_text. rewrite Hclean. apply squash_concat_strip.
  - intros Hoff. eapply kept_characters_unfiltered; eauto.
Qed.

(** *** Runs that complete

    The loop indexes the buffer from the end and calls the two float
    products; with a context size and a minimum first-fragment length of at
    least 1, and an interval that the float products accept, no iteration
    raises and every stream is processed to its end. *)

Lemma py_index_from_end {A} (s : list A) (k : Z) :
  1 <= k <= len s -> exists a, py_index s (- k) = Ok a.
Proof.
  intros [H1 H2]. unfold py_index.
  destruct (- k <? 0) eqn:E; [|lia].
  destruct (len s + - k <? 0) eqn:E1; [lia|].
  destruct (len s <=? len s + - k) eqn:E2; [lia|]. cbn [orb].
  destruct (nth_error s (Z.to_nat (len s + - k))) eqn:E3; [eauto|].
  apply nth_error_None in E3. unfold len in *. lia.
Qed.

Lemma boundary_total (text : str) (p : Z) :
  p < len text -> exists b, _is_likely_sentence_boundary text p = Ok b.
Proof.
  intros Hp. unfold _is_likely_sentence_boundary.
  destruct (p <? 1) eqn:E; [eauto|].
  destruct (py_index_in_range text p ltac:(lia)) as [d Hd].
  rewrite Hd. cbn [bind].
  destruct (N.eqb d COMMA).
  - destruct (len (strip (slice_to text p)) <? 4); [eauto|].
    destruct (split (strip (slice_to text p))) as [|w words] eqn:Ew; [eauto|].
    destruct (py_index_from_end (w :: words) 1) as [x Hx];
      [rewrite len_cons; pose proof (len_nonneg words); lia|].
    change (- (1)) with (-1) in Hx. rewrite Hx. cbn [bind].
    destruct (len x <=? 3); eauto.
  - destruct (N.eqb d PERIOD); [|eauto].
    destruct (len (slice text (scan_word_start text (Z.to_nat p) + 1) p) <=? 2);
      [|eauto].
    destruct (p + 1 <? len text) eqn:E2; [|eauto].
    destruct (py_index_in_range text (p + 1) ltac:(lia)) as [x Hx].
    rewrite Hx. cbn [bind]. destruct (isalnum x || N.eqb x PERIOD); eauto.
Qed.

Lemma tokenize_total (text : str) : exists l, tokenize B cfg text = Ok l.
Proof.
  unfold tokenize, _tokenize_sentences.
  destruct (obtain_sentences B (tokenizer cfg) text (tokenize_sentences cfg)
              (poetic_mode cfg) (preserve_line_breaks cfg)) as [text' fl].
  destruct fl; eauto.
Qed.

Section Total.
Hypothesis context_positive : 1 <= context_size cfg.
Hypothesis first_fragment_positive : 1 <= minimum_first_fragment_length cfg.
Hypothesis weak_interval_fits :
  exists n, int_mul_weak_pause_ratio (tokenization_interval cfg) = Ok n.
Hypothesis strong_interval_fits :
  exists n, int_mul_strong_pause_ratio (tokenization_interval cfg) = Ok n.

Lemma lookback_total (st : state) (c : char) (buf : str) (wc cs : Z) :
  exists r, lookback B cfg st c buf wc cs = Ok r.
Proof.
  unfold lookback. cbv zeta.
  destruct (context_size cfg <? len buf) eqn:E; [|eauto].
  destruct (py_index_from_end buf (context_size cfg) ltac:(lia)) as [d Hd].
  rewrite Hd. cbn [bind].
  match goal with
  | |- context [if (if ?s then ?a else ?b) then _ else _] =>
      destruct (if s then a else b)
  end; [eauto|].
  destruct (char_in d (full_sentence_delims_set cfg)) eqn:Es;
    destruct (char_in d (of_string ";:,")) eqn:Ew; cbn [orb]; [| | |eauto];
    (destruct (context_size cfg - 1 <? min_chars_after_delimiter cfg); [eauto|]);
    (destruct (boundary_total buf (len buf - context_size cfg) ltac:(lia))
       as [likely Hl]; rewrite Hl; cbn [bind]);
    (destruct (negb likely); [eauto|]);
    destruct weak_interval_fits as [nw Hw];
    destruct strong_interval_fits as [ns Hs];
    rewrite ?Hw, ?Hs; cbn [bind];
    (match goal with
     | |- context [if ?b then Ok (_, []) else _] => destruct b; [eauto|]
     end);
    (destruct (tokenize_total buf) as [sentences Ht]; rewrite Ht; cbn [bind]);
    (destruct (1 <? len sentences) eqn:Hmany; [|eauto]);
    (match goal with
     | |- context [if ?b then _ else Ok _] => destruct b; [|eauto]
     end);
    (destruct (py_index_from_end sentences 1 ltac:(lia)) as [x Hx];
     change (- (1)) with (-1) in Hx; rewrite Hx; cbn [bind]; eauto).
Qed.

Lemma first_fragment_total (st : state) (c : char) (buf : str) (wc cs : Z) :
  exists r, first_fragment_logic cfg st c buf wc cs = Ok r.
Proof.
  unfold first_fragment_logic.
  destruct (is_first_sentence st
            && (minimum_first_fragment_length cfg <=? len buf)
            && single_sentence_fragment cfg) eqn:Hfirst; [|eauto].
  apply andb_prop in Hfirst as [Hfirst _].
  apply andb_prop in Hfirst as [_ Hfirst].
  destruct (py_index_from_end buf 1 ltac:(lia)) as [x Hx].
  change (- (1)) with (-1) in Hx. rewrite Hx. cbn [bind].
  destruct (char_in x (sentence_fragment_delims_set cfg)
            || isspace c && (force_first_fragment_after_words cfg <=? wc));
    [|eauto].
  destruct (N.eqb x COMMA && (len (strip buf) <? 6)); eauto.
Qed.

Lemma step_total (st : state) (c : char) : exists r, step B cfg st c = Ok r.
Proof.
  unfold step. cbv zeta.
  destruct (leading_filtered cfg st c); [eauto|].
  destruct (max_buffer_size cfg <? len (lstrip (buffer st ++ [c]))); [eauto|].
  destruct (first_fragment_total st c (lstrip (buffer st ++ [c]))
              (counted_words cfg st c) (counted_chars_since cfg st c))
    as [[r|] Hr]; rewrite Hr; cbn [bind]; [eauto|].
  branch; [eauto | apply lookback_total].
Qed.

Lemma run_total (chars : str) (st : state) :
  exists r, run B cfg st chars = Ok r.
Proof.
  revert st. induction chars as [|c chars IH]; intros st; cbn [run].
  - eauto.
  - destruct (step_total st c) as [[st1 evs1] H1]. rewrite H1.
    cbn [bind fst snd].
    destruct (IH st1) as [[st2 evs2] H2]. rewrite H2. cbn [bind]. eauto.
Qed.

(** X18. With a context size and a minimum first-fragment length of at
    least 1, and a tokenization interval that the two float products accept,
    the generator raises on no stream, whatever the tokenizer does. *)
Lemma generate_total (generator : list str) :
  exists evs, generate_sentences_async B cfg generator = Ok evs.
Proof.
  unfold generate_sentences_async.
  destruct (run_total (_generate_characters generator) initial)
    as [[st evs] H]. rewrite H. cbn [bind fst snd].
  unfold finish. destruct (nonempty (buffer st)); cbn [bind]; [|eauto].
  destruct (tokenize_total (buffer st)) as [sentences Ht]. rewrite Ht.
  cbn [bind]. destruct (drain cfg sentences []). cbn [bind]. eauto.
Qed.

End Total.

End Loop.

(** ** Tokenizers that keep the text *)

Section Faithful.
Context {L : PyLib}.

Lemma combine_loop_squash (sentences combined : list str) (temp : str) :
  squash (concat (fst (combine_loop sentences combined temp))
          ++ snd (combine_loop sentences combined temp))
  = squash (concat combined ++ temp ++ concat sentences).
Proof.
  revert combined temp.
  induction sentences as [|s rest IH]; intros combined temp;
    cbn [combine_loop fst snd concat].
  - rewrite app_nil_r. reflexivity.
  - destruct (len s <? 10).
    + rewrite IH, !squash_app. cbn. rewrite app_nil_r, <- !app_assoc.
      reflexivity.
    + destruct (nonempty temp) eqn:E.
      * rewrite IH, concat_app, !squash_app. cbn [concat app].
        rewrite app_nil_r, squash_strip, squash_app, <- !app_assoc.
        reflexivity.
      * destruct temp; [|discriminate].
        rewrite IH, concat_app, !squash_app. cbn [concat app].
        rewrite app_nil_r, squash_strip, <- !app_assoc. reflexivity.
Qed.

Lemma combine_short_squash (sentences : list str) :
  squash (concat (combine_short sentences)) = squash (concat sentences).
Proof.
  unfold combine_short.
  pose proof (combine_loop_squash sentences [] []) as H.
  destruct (combine_loop sentences [] []) as [combined temp].
  cbn [fst snd concat app] in H. rewrite <- H.
  destruct temp as [|c temp]; cbn [nonempty].
  - rewrite app_nil_r. reflexivity.
  - rewrite concat_app, !squash_app. cbn [concat].
    rewrite app_nil_r, squash_strip. reflexivity.
Qed.

Lemma short_sentence_pass_squash (sentences : list str) :
  squash (concat (short_sentence_pass sentences)) = squash (concat sentences).
Proof.
  unfold short_sentence_pass.
  destruct (nonempty (combine_short sentences)
            && (len (combine_short sentences) <? len sentences));
    [apply combine_short_squash | reflexivity].
Qed.

Lemma split_on_squash (sep : char) (s cur : str) :
  isspace sep = true ->
  squash (concat (split_on_from sep cur s)) = squash (cur ++ s).
Proof.
  intros Hsep. revert cur.
  induction s as [|c s IH]; intros cur; cbn [split_on_from concat].
  - reflexivity.
  - destruct (N.eqb c sep) eqn:E.
    + apply N.eqb_eq in E. subst c. cbn [concat].
      rewrite !squash_app, IH. cbn [app squash filter]. rewrite Hsep.
      reflexivity.
    + rewrite IH, <- app_assoc. reflexivity.
Qed.

Lemma blank_lines_squash (lines : list str) :
  squash (concat (filter (fun line => nonempty (strip line)) lines))
  = squash (concat lines).
Proof.
  induction lines as [|l lines IH]; [reflexivity|].
  cbn [filter concat]. destruct (nonempty (strip l)) eqn:E.
  - cbn [concat]. rewrite !squash_app, IH. reflexivity.
  - rewrite squash_app, IH, <- (squash_strip l).
    destruct (strip l); [reflexivity | discriminate].
Qed.

Lemma replace_squash (a b : char) (s : str) :
  isspace a = true -> isspace b = true -> squash (replace a b s) = squash s.
Proof.
  intros Ha Hb. unfold replace, squash.
  induction s as [|c s IH]; [reflexivity|].
  cbn [map filter]. destruct (N.eqb c a) eqn:E.
  - apply N.eqb_eq in E. subst c. rewrite Ha, Hb. exact IH.
  - rewrite IH. reflexivity.
Qed.

(** The adapter keeps the text when the callback and the backends do. *)
Lemma adapter_faithful (B : Backends) (cfg : config) :
  (forall f, tokenize_sentences cfg = Some f -> backend_faithful f) ->
  backend_faithful (sent_tokenize B) ->
  (forall pipeline, nlp B = Some pipeline -> backend_faithful pipeline) ->
  tokenizer_faithful B cfg.
Proof.
  intros Hcallback Hnltk Hstanza text sentences.
  unfold tokenize, _tokenize_sentences.
  destruct (obtain_sentences B (tokenizer cfg) text (tokenize_sentences cfg)
              (poetic_mode cfg) (preserve_line_breaks cfg)) as [text' fl] eqn:E.
  assert (Hfl : squash text' = squash text
                /\ match fl with
                   | Sentences l => squash (concat l) = squash text'
                   | Return l => l = [text']
                   | Raised _ => True
                   end).
  { assert (Hb : forall t,
               match backend_sentences B (tokenizer cfg) t with
               | Sentences l => squash (concat l) = squash t
               | Return l => l = [t]
               | Raised _ => True
               end).
    { intros t. unfold backend_sentences, call.
      destruct (str_eqb (tokenizer cfg) (of_string "nltk")).
      - destruct (import_nltk B); [|exact I].
        destruct (sent_tokenize B t) eqn:E1; [|exact I].
        apply (Hnltk _ _ E1).
      - destruct (str_eqb (tokenizer cfg) (of_string "stanza")); [|exact I].
        destruct (import_stanza B); [|exact I].
        destruct (nlp B) as [pipeline|] eqn:E2; [|reflexivity].
        destruct (pipeline t) eqn:E1; [|exact I].
        apply (Hstanza _ eq_refl _ _ E1). }
    unfold obtain_sentences in E.
    destruct (tokenize_sentences cfg) as [f|] eqn:Ef.
    - injection E as <- <-. split; [reflexivity|]. unfold call.
      destruct (f text) eqn:E1; [|exact I]. apply (Hcallback _ eq_refl _ _ E1).
    - destruct (poetic_mode cfg); [destruct (preserve_line_breaks cfg)|];
        injection E as <- <-.
      + split; [reflexivity|]. rewrite blank_lines_squash.
        apply (split_on_squash NEWLINE text []). reflexivity.
      + split; [apply replace_squash; reflexivity | apply Hb].
      + split; [reflexivity | apply Hb]. }
  destruct Hfl as [Htext Hfl].
  assert (Hone : squash (concat [text']) = squash text)
    by (cbn [concat]; rewrite app_nil_r; exact Htext).
  destruct fl as [l | l | e]; intros [= <-].
  - destruct (nonempty (short_sentence_pass l)); [|exact Hone].
    rewrite short_sentence_pass_squash, Hfl. exact Htext.
  - subst l. exact Hone.
  - exact Hone.
Qed.

Lemma count_squash (a : char) (s : str) :
  isspace a = false ->
  count_occ N.eq_dec (squash s) a = count_occ N.eq_dec s a.
Proof.
  intros Ha. induction s as [|c s IH]; [reflexivity|].
  cbn [squash filter]. destruct (isspace c) eqn:E; cbn [negb].
  - rewrite count_occ_cons_neq by congruence. exact IH.
  - cbn [count_occ]. fold (squash s). rewrite IH. reflexivity.
Qed.

End Faithful.

(** The defaults fall under both theorems. *)
Lemma default_lookback_never_passes_witness :
  exists st evs,
    run (L := basic_latin) no_backend default_config initial
      (of_string "Hello, world. This is the second sentence, and more.")
    = Ok (st, evs)
    /\ Forall quick_or_forced evs
    /\ tokenization_counter st = 0.
Proof.
  destruct (run (L := basic_latin) no_backend default_config initial
              (of_string "Hello, world. This is the second sentence, and more."))
    as [[st evs]|] eqn:Hrun; [|vm_compute in Hrun; discriminate Hrun].
  exists st, evs. split; [reflexivity|].
  exact (proj1 (proj2 (default_lookback_never_passes (L := basic_latin)
                         no_backend default_config eq_refl eq_refl))
           _ st evs Hrun).
Defined.

Lemma buffer_bounded_witness :
  exists st evs,
    run (L := basic_latin) no_backend default_config initial
      (of_string "Hello wor") = Ok (st, evs)
    /\ len (buffer st) <= max_buffer_size default_config.
Proof.
  eexists. eexists. split; [vm_compute; reflexivity|].
  eapply (buffer_bounded (L := basic_latin) no_backend default_config
            (of_string "Hello wor")).
  - discriminate.
  - left. reflexivity.
  - vm_compute. reflexivity.
Defined.

(** ** Counterexamples, on concrete streams *)

Lemma period_tokenizer_faithful : backend_faithful period_tokenizer.
Proof.
  assert (H : forall text cur,
             concat (split_after_period cur text) = cur ++ text).
  { induction text as [|c text IH]; intros cur; cbn [split_after_period].
    - destruct cur; cbn; rewrite ?app_nil_r; reflexivity.
    - destruct (N.eqb c PERIOD); [cbn [concat]|]; rewrite IH, <- ?app_assoc;
        reflexivity. }
  intros text sentences [= <-]. rewrite H. reflexivity.
Qed.

(** C1, as stated, fails. The callback cuts after every full stop and loses
    nothing; the guard passes ([context_size - 1 = 1] characters are enough)
    and the tokenizer confirms two sentences of 13 and 21 characters, 34 in
    all against a minimum of 30. The first is shorter than [30 // 2] and is
    not yielded, yet the buffer becomes the last sentence: the leading
    filter skips no character of the stream, and the twelve letters of the
    first sentence are in no fragment. *)
Lemma short_confirmed_sentence_lost :
  generate_sentences_async (L := basic_latin) no_backend
    (example_config 2 30 700 1 1 false (Some period_tokenizer))
    [of_string "AAAAAAAAAAAA.BBBBBBBBBBBBBBBBBBBB.C"]
  = Ok [Tokenize (of_string "AAAAAAAAAAAA.BBBBBBBBBBBBBBBBBBBB.C");
        Yield Validated (of_string "BBBBBBBBBBBBBBBBBBBB.");
        Tokenize (of_string "C");
        Yield Final (of_string "C")]
  /\ kept_characters (L := basic_latin) no_backend
       (example_config 2 30 700 1 1 false (Some period_tokenizer)) initial
       (of_string "AAAAAAAAAAAA.BBBBBBBBBBBBBBBBBBBB.C")
     = Ok (of_string "AAAAAAAAAAAA.BBBBBBBBBBBBBBBBBBBB.C")
  /\ count_occ N.eq_dec (of_string "AAAAAAAAAAAA.BBBBBBBBBBBBBBBBBBBB.C") 65%N
     = 12%nat
  /\ count_occ N.eq_dec
       (concat [of_string "BBBBBBBBBBBBBBBBBBBB."; of_string "C"]) 65%N
     = 0%nat.
Proof. repeat split; vm_compute; reflexivity. Qed.

(** The guard of the lookback is live here, and the tokenizer confirms the
    first sentence while the stream goes on. *)
Lemma output_complete_witness :
  exists evs pieces,
    generate_sentences_async (L := basic_latin) no_backend
      (example_config 2 1 700 1 1 false (Some period_tokenizer))
      [of_string "  Hello wor"; of_string "ld.Bye now"] = Ok evs
    /\ In (Yield Validated (of_string "Hello world.")) evs
    /\ fragments evs
       = map (clean (L := basic_latin)
                (example_config 2 1 700 1 1 false (Some period_tokenizer)))
           pieces
    /\ squash (concat pieces) = squash (of_string "Hello world.Bye now").
Proof.
  assert (Hrun : generate_sentences_async (L := basic_latin) no_backend
                   (example_config 2 1 700 1 1 false (Some period_tokenizer))
                   [of_string "  Hello wor"; of_string "ld.Bye now"]
                 = Ok [Tokenize (of_string "Hello world.B");
                       Yield Validated (of_string "Hello world.");
                       Tokenize (of_string "Bye now");
                       Yield Final (of_string "Bye now")])
    by (vm_compute; reflexivity).
  assert (Hfaith : tokenizer_faithful no_backend
                     (example_config 2 1 700 1 1 false (Some period_tokenizer))).
  { apply adapter_faithful.
    - intros f [= <-]. exact period_tokenizer_faithful.
    - intros text sentences H. discriminate H.
    - intros pipeline H. discriminate H. }
  assert (Hlong : confirmed_sentences_long no_backend
                    (example_config 2 1 700 1 1 false (Some period_tokenizer))).
  { intros text front last_sentence sentence _ _. apply len_nonneg. }
  destruct (output_complete (L := basic_latin) no_backend
              (example_config 2 1 700 1 1 false (Some period_tokenizer))
              [of_string "  Hello wor"; of_string "ld.Bye now"] _
              Hfaith (or_intror Hlong) Hrun)
    as (pieces & kept & H1 & H2 & H3 & _).
  vm_compute in H1. injection H1 as <-.
  eexists. exists pieces. split; [exact Hrun|].
  split; [right; left; reflexivity|]. split; assumption.
Defined.

(** C2, as stated, fails. With [max_buffer_size = 1] the second character
    makes the buffer 2 long; the split takes [1 // 2 = 0] characters, yields
    the empty fragment and leaves both characters in the buffer. *)
Lemma buffer_exceeds_limit_of_one :
  run (L := basic_latin) no_backend (example_config 15 12 1 6 25 true None)
    initial (of_string "ab")
  = Ok ({| buffer := of_string "ab"; is_first_sentence := true;
           word_count := 0; last_delimiter_position := -1;
           fragment_count := 0; tokenization_counter := 0;
           chars_since_last_strong_delim := 0 |},
        [Yield Forced []])
  /\ max_buffer_size (example_config 15 12 1 6 25 true None)
     < len (of_string "ab").
Proof. split; [vm_compute; reflexivity | reflexivity]. Qed.

(** C9, as stated, fails. Strict mode is on and a tokenizer is there, and
    the only fragment of the stream [Hi], yielded by the final drain, has 2
    characters against [12 // 2 = 6]. *)
Lemma final_fragment_short :
  strict_punctuation_mode
    (example_config 15 12 700 6 25 true (Some period_tokenizer)) = true
  /\ generate_sentences_async (L := basic_latin) no_backend
       (example_config 15 12 700 6 25 true (Some period_tokenizer))
       [of_string "Hi"]
     = Ok [Tokenize (of_string "Hi"); Yield Final (of_string "Hi")]
  /\ len (of_string "Hi")
     < minimum_sentence_length
         (example_config 15 12 700 6 25 true (Some period_tokenizer)) / 2.
Proof.
  split; [reflexivity|].
  split; [vm_compute; reflexivity | reflexivity].
Qed.

(** The confirmed sentence of the stream above was tested when [C]
    arrived. *)
Lemma fragment_lengths_witness :
  exists before c after st0 evs0,
    of_string "AAAAAAAAAAAA.BBBBBBBBBBBBBBBBBBBB.C" = before ++ c :: after
    /\ run (L := basic_latin) no_backend
         (example_config 2 30 700 1 1 false (Some period_tokenizer)) initial
         before = Ok (st0, evs0)
    /\ length_tested (L := basic_latin) no_backend
         (example_config 2 30 700 1 1 false (Some period_tokenizer)) st0 c
         (Yield Validated (of_string "BBBBBBBBBBBBBBBBBBBB.")).
Proof.
  destruct (run (L := basic_latin) no_backend
              (example_config 2 30 700 1 1 false (Some period_tokenizer)) initial
              (of_string "AAAAAAAAAAAA.BBBBBBBBBBBBBBBBBBBB.C"))
    as [[st evs]|] eqn:Hrun; [|vm_compute in Hrun; discriminate Hrun].
  apply (proj1 (fragment_lengths (L := basic_latin) no_backend
                  (example_config 2 30 700 1 1 false (Some period_tokenizer))
                  (of_string "AAAAAAAAAAAA.BBBBBBBBBBBBBBBBBBBB.C")
                  st evs Hrun)).
  vm_compute in Hrun. injection Hrun as _ <-. right. left. reflexivity.
Defined.

(** ** The model on a few streams *)

(** A first fragment at the full stop, the rest at the end of the stream. *)
Example two_chunks :
  generate_sentences_async (L := basic_latin) no_backend default_config
    [of_string "Hello, wor"; of_string "ld. Bye"]
  = Ok [Yield First (of_string "Hello, world.");
        Tokenize (of_string "Bye");
        Yield Final (of_string "Bye")].
Proof. vm_compute. reflexivity. Qed.

(** Sixteen letters against a limit of 8: the buffer is split each time it
    reaches 9 characters, and what is left is drained at the end. *)
Example long_run_is_split :
  fragments_of
    (generate_sentences_async (L := basic_latin) no_backend
       (example_config 15 12 8 6 25 true None) [of_string "aaaaaaaaaaaaaaaa"])
  = Ok [of_string "aaaa"; of_string "aaaa"; of_string "aaaaaaaa"].
Proof. vm_compute. reflexivity. Qed.

(** Leading punctuation is dropped, an opening bracket is kept. *)
Example leading_characters :
  fragments_of
    (generate_sentences_async (L := basic_latin) no_backend default_config
       [of_string "... (Hi)"])
  = Ok [of_string "(Hi)"].
Proof. vm_compute. reflexivity. Qed.

(** ** Initialisation of the tokenizers *)

Lemma str_eqb_eq (a b : str) : str_eqb a b = true <-> a = b.
Proof.
  revert b. induction a as [|x a IH]; destruct b as [|y b]; cbn [str_eqb];
    try (split; [discriminate | discriminate]); [split; reflexivity|].
  rewrite andb_true_iff, N.eqb_eq, IH. split.
  - intros [-> ->]. reflexivity.
  - intros [= -> ->]. auto.
Qed.

(** X1. [initialize_nltk] does nothing once NLTK is initialised. Otherwise
    it marks NLTK initialised exactly when the import succeeds and the Punkt
    data is found or its download does not raise; it downloads exactly when
    the import succeeds and the data is missing, quietly unless [debug]; and
    it leaves the other globals alone. *)
Theorem initialize_nltk_outcome (W : Init.library) (G : Init.globals)
  (debug : bool) :
  (Init.nltk_initialized G = true ->
   Init.initialize_nltk W G debug = (G, []))
  /\ (Init.nltk_initialized G = false ->
      let r := Init.initialize_nltk W G debug in
      (Init.nltk_initialized (fst r) = true <->
       (exists u, Init.import_nltk W = Ok u)
       /\ (Init.find_punkt W = Init.Found
           \/ (Init.find_punkt W = Init.NotFound
               /\ exists u, Init.download_punkt W (negb debug) = Ok u)))
      /\ (forall quiet,
             In (Init.DownloadPunkt quiet) (snd r) <->
             (exists u, Init.import_nltk W = Ok u)
             /\ Init.find_punkt W = Init.NotFound /\ quiet = negb debug)
      /\ Init.nlp (fst r) = Init.nlp G
      /\ Init.stanza_initialized (fst r) = Init.stanza_initialized G
      /\ Init.current_tokenizer (fst r) = Init.current_tokenizer G).
Proof.
  unfold Init.initialize_nltk. split; intros Hflag; rewrite Hflag;
    [reflexivity|].
  cbv zeta.
  destruct (Init.import_nltk W) as [u|e] eqn:Ei;
    [destruct (Init.find_punkt W) as [| |e] eqn:Ef;
     [| destruct (Init.download_punkt W (negb debug)) as [v|e] eqn:Ed|]|];
    cbn [fst snd Init.set_nltk Init.nltk_initialized Init.nlp
         Init.stanza_initialized Init.current_tokenizer In];
    (split; [|split; [|auto]]);
    try intros quiet; split; intros H; try discriminate H;
    decompose [and or ex] H;
    try discriminate; try contradiction; subst; eauto 6;
    match goal with
    | H : Init.DownloadPunkt _ = Init.DownloadPunkt _ |- _ =>
        injection H as <-; eauto 6
    end.
Qed.

Ltac settle_init :=
  intros; split;
  let H := fresh "H" in
  intros H; try discriminate H; decompose [and or ex] H;
  try discriminate; try contradiction; subst; eauto 8;
  try match goal with
      | H : Init.DownloadModels _ = Init.DownloadModels _ |- _ =>
          injection H as <-; eauto 8
      end.

(** X2. [initialize_stanza] does nothing once Stanza is initialised.
    Otherwise it marks Stanza initialised exactly when the import succeeds,
    the models are downloaded without an exception or the call is offline,
    and the pipeline is built, which then is the global [nlp]; when it fails
    [nlp] is what it was. It downloads the models of the language exactly
    when the import succeeds and the call is not offline, and it leaves the
    other globals alone. *)
Theorem initialize_stanza_outcome (W : Init.library) (G : Init.globals)
  (language : str) (offline : bool) :
  (Init.stanza_initialized G = true ->
   Init.initialize_stanza W G language offline = (G, []))
  /\ (Init.stanza_initialized G = false ->
      let r := Init.initialize_stanza W G language offline in
      (Init.stanza_initialized (fst r) = true <->
       (exists u, Init.import_stanza W = Ok u)
       /\ (offline = true \/ exists u, Init.download_models W language = Ok u)
       /\ exists pipeline,
            Init.build_pipeline W language = Ok pipeline
            /\ Init.nlp (fst r) = Some pipeline)
      /\ (Init.stanza_initialized (fst r) = false ->
          Init.nlp (fst r) = Init.nlp G)
      /\ (forall l,
             In (Init.DownloadModels l) (snd r) <->
             (exists u, Init.import_stanza W = Ok u)
             /\ offline = false /\ l = language)
      /\ Init.nltk_initialized (fst r) = Init.nltk_initialized G
      /\ Init.current_tokenizer (fst r) = Init.current_tokenizer G).
Proof.
  unfold Init.initialize_stanza. split; intros Hflag; rewrite Hflag;
    [reflexivity|].
  cbv zeta.
  destruct (Init.import_stanza W) as [u|e] eqn:Ei;
    [destruct offline; cbn [negb];
     [| destruct (Init.download_models W language) as [v|e] eqn:Ed];
     try (destruct (Init.build_pipeline W language) as [pipeline|e] eqn:Eb)|];
    cbn [fst snd app Init.set_stanza Init.set_nlp Init.nltk_initialized
         Init.nlp Init.stanza_initialized Init.current_tokenizer In];
    (split; [|split; [|split; [|auto]]]); try discriminate; auto;
    settle_init.
Qed.

Lemma init_tokenizer_keeps (W : Init.library) (G : Init.globals)
  (tokenizer language : str) (offline debug : bool) :
  let G' := fst (Init.init_tokenizer W G tokenizer language offline debug) in
  ((Init.stanza_initialized G = true -> Init.nlp G <> None) ->
   Init.stanza_initialized G' = true -> Init.nlp G' <> None)
  /\ (Init.nlp G <> None -> Init.nlp G' <> None)
  /\ Init.current_tokenizer G' = Init.current_tokenizer G.
Proof.
  unfold Init.init_tokenizer, Init.initialize_nltk, Init.initialize_stanza.
  destruct (str_eqb tokenizer (of_string "nltk")).
  - destruct (Init.nltk_initialized G); [cbn; auto|].
    destruct (Init.import_nltk W); [destruct (Init.find_punkt W);
      [| destruct (Init.download_punkt W (negb debug)) |] |]; cbn; auto.
  - destruct (str_eqb tokenizer (of_string "stanza")); [|cbn; auto].
    destruct (Init.stanza_initialized G) eqn:Ef; [cbn; auto|].
    destruct (Init.import_stanza W); [|cbn; repeat split; auto; discriminate].
    destruct (negb offline);
      [destruct (Init.download_models W language)|];
      try destruct (Init.build_pipeline W language);
      cbn; repeat split; auto; discriminate.
Qed.

(** X3. Over any sequence of calls to [init_tokenizer], whatever the
    libraries answer each time: if [nlp] held a pipeline whenever Stanza was
    marked initialised, it still does; a pipeline once in [nlp] is never
    taken away; and the global [current_tokenizer] is not touched. *)
Theorem pipeline_when_initialised (G : Init.globals)
  (requests : list Init.request) :
  (Init.stanza_initialized G = true -> Init.nlp G <> None) ->
  (Init.stanza_initialized (Init.initialise_all G requests) = true ->
   Init.nlp (Init.initialise_all G requests) <> None)
  /\ (Init.nlp G <> None -> Init.nlp (Init.initialise_all G requests) <> None)
  /\ Init.current_tokenizer (Init.initialise_all G requests)
     = Init.current_tokenizer G.
Proof.
  revert G. induction requests as [|r requests IH]; intros G Hinv;
    cbn [Init.initialise_all].
  - auto.
  - destruct (init_tokenizer_keeps (Init.answers r) G (Init.wanted r)
                (Init.wanted_language r) (Init.wanted_offline r)
                (Init.wanted_debug r)) as (H1 & H2 & H3).
    destruct (IH _ (H1 Hinv)) as (K1 & K2 & K3).
    repeat split; auto. congruence.
Qed.

Lemma pipeline_when_initialised_witness :
  Init.stanza_initialized
    (Init.initialise_all Init.fresh
       [Init.Build_request
          (Init.Build_library (Ok tt) Init.Found (fun _ => Ok tt) (Ok tt)
             (fun _ => Ok tt) (fun _ => Ok period_tokenizer))
          (of_string "stanza") (of_string "ru") false false]) = true
  /\ Init.nlp
       (Init.initialise_all Init.fresh
          [Init.Build_request
             (Init.Build_library (Ok tt) Init.Found (fun _ => Ok tt) (Ok tt)
                (fun _ => Ok tt) (fun _ => Ok period_tokenizer))
             (of_string "stanza") (of_string "ru") false false]) <> None.
Proof.
  split; [reflexivity|].
  apply (proj1 (pipeline_when_initialised Init.fresh _
                  ltac:(intros H; discriminate H))).
  reflexivity.
Defined.

Lemma str_eqb_neq (a b : str) : a <> b -> str_eqb a b = false.
Proof.
  intros H. destruct (str_eqb a b) eqn:E; [|reflexivity].
  apply str_eqb_eq in E. contradiction.
Qed.

(** X4. A tokenizer name that is neither of the two known ones is no error:
    the generator's first statements record the name and initialise
    nothing, and every later call of the adapter without a callback, outside
    poetic mode with line breaks, returns the text alone. *)
Theorem unknown_tokenizer_falls_back (W : Init.library) (G : Init.globals)
  (tokenizer language : str) (debug : bool) :
  tokenizer <> of_string "nltk" ->
  tokenizer <> of_string "stanza" ->
  Init.start_stream W G tokenizer language debug
  = (Init.set_current G tokenizer, [])
  /\ forall B text poetic_mode preserve_line_breaks,
      poetic_mode && preserve_line_breaks = false ->
      _tokenize_sentences B tokenizer text None poetic_mode preserve_line_breaks
      = Ok [fallback_text text None poetic_mode preserve_line_breaks].
Proof.
  intros Hn Hs. split.
  - unfold Init.start_stream, Init.init_tokenizer.
    cbn [Init.current_tokenizer Init.set_current].
    rewrite (str_eqb_neq _ _ Hn), (str_eqb_neq _ _ Hs). reflexivity.
  - intros B text pm plb Hmode.
    unfold _tokenize_sentences, obtain_sentences, backend_sentences,
      fallback_text.
    rewrite (str_eqb_neq _ _ Hn), (str_eqb_neq _ _ Hs).
    destruct pm; [destruct plb; [discriminate Hmode|]|]; reflexivity.
Qed.

Lemma unknown_tokenizer_falls_back_witness :
  Init.start_stream
    (Init.Build_library (Ok tt) Init.Found (fun _ => Ok tt) (Ok tt)
       (fun _ => Ok tt) (fun _ => Ok period_tokenizer))
    Init.fresh (of_string "spacy") (of_string "ru") false
  = (Init.set_current Init.fresh (of_string "spacy"), [])
  /\ _tokenize_sentences no_backend (of_string "spacy") (of_string "Hi. Yes.")
       None false false
     = Ok [of_string "Hi. Yes."].
Proof.
  destruct (unknown_tokenizer_falls_back
              (Init.Build_library (Ok tt) Init.Found (fun _ => Ok tt) (Ok tt)
                 (fun _ => Ok tt) (fun _ => Ok period_tokenizer))
              Init.fresh (of_string "spacy") (of_string "ru") false
              ltac:(discriminate) ltac:(discriminate)) as [H1 H2].
  split; [exact H1|].
  exact (H2 no_backend (of_string "Hi. Yes.") false false eq_refl).
Defined.

(** X5. The generator hands [debug] to [init_tokenizer] in the place of
    [offline]: when Stanza is selected, not yet initialised and importable,
    its models are downloaded exactly when [debug] is off. When NLTK is
    selected, a download of the Punkt data is always quiet. *)
Theorem start_stream_downloads (W : Init.library) (G : Init.globals)
  (language : str) (debug : bool) :
  (Init.stanza_initialized G = false ->
   (exists u, Init.import_stanza W = Ok u) ->
   (In (Init.DownloadModels language)
       (snd (Init.start_stream W G (of_string "stanza") language debug))
    <-> debug = false))
  /\ (forall quiet,
        In (Init.DownloadPunkt quiet)
          (snd (Init.start_stream W G (of_string "nltk") language debug)) ->
        quiet = true).
Proof.
  split.
  - intros Hflag [u Hi].
    unfold Init.start_stream, Init.init_tokenizer, Init.initialize_stanza.
    cbn [Init.current_tokenizer Init.set_current Init.stanza_initialized].
    change (str_eqb (of_string "stanza") (of_string "nltk")) with false.
    change (str_eqb (of_string "stanza") (of_string "stanza")) with true.
    cbv iota. rewrite Hflag, Hi.
    destruct debug; cbn [negb];
      [| destruct (Init.download_models W language)];
      try destruct (Init.build_pipeline W language);
      cbn [snd app In]; split; intros H; try discriminate H; auto;
      decompose [or] H; try discriminate; try contradiction.
  - intros quiet.
    unfold Init.start_stream, Init.init_tokenizer, Init.initialize_nltk.
    cbn [Init.current_tokenizer Init.set_current Init.nltk_initialized].
    change (str_eqb (of_string "nltk") (of_string "nltk")) with true.
    cbv iota.
    destruct (Init.nltk_initialized G); [intros []|].
    destruct (Init.import_nltk W);
      [destruct (Init.find_punkt W);
       [| destruct (Init.download_punkt W (negb false)) |] |];
      cbn [snd In negb]; intros H; decompose [or] H;
      try discriminate; try contradiction;
      match goal with
      | H : Init.DownloadPunkt _ = Init.DownloadPunkt _ |- _ =>
          injection H as <-; reflexivity
      end.
Qed.

Lemma start_stream_downloads_witness :
  In (Init.DownloadModels (of_string "ru"))
    (snd (Init.start_stream
            (Init.Build_library (Ok tt) Init.Found (fun _ => Ok tt) (Ok tt)
               (fun _ => Ok tt) (fun _ => Ok period_tokenizer))
            Init.fresh (of_string "stanza") (of_string "ru") false))
  <-> false = false.
Proof.
  apply (proj1 (start_stream_downloads
                  (Init.Build_library (Ok tt) Init.Found (fun _ => Ok tt)
                     (Ok tt) (fun _ => Ok tt) (fun _ => Ok period_tokenizer))
                  Init.fresh (of_string "ru") false)).
  - reflexivity.
  - exists tt. reflexivity.
Defined.

Lemma initialize_stanza_failure (W : Init.library) (G : Init.globals)
  (language : str) (offline : bool) :
  let G' := fst (Init.initialize_stanza W G language offline) in
  Init.stanza_initialized G = false ->
  Init.stanza_initialized G' = false ->
  Init.nlp G' = Init.nlp G
  /\ Init.current_tokenizer G' = Init.current_tokenizer G.
Proof.
  cbv zeta. unfold Init.initialize_stanza. intros Hflag. rewrite Hflag.
  destruct (Init.import_stanza W); [|cbn; auto].
  destruct (negb offline);
    [destruct (Init.download_models W language)|];
    try destruct (Init.build_pipeline W language);
    cbn; auto; discriminate.
Qed.

(** X6. When the initialisation of Stanza at the start of a stream fails,
    from the globals as loaded, [nlp] is still [None]; the adapter, without
    a callback and outside poetic mode with line breaks, then returns the
    text alone for every text, and raises nothing. *)
Theorem failed_initialisation_falls_back (W : Init.library)
  (language : str) (debug : bool) (sent_tokenize : tokenizer_fn) :
  let G := fst (Init.start_stream W Init.fresh (of_string "stanza") language
                  debug) in
  Init.stanza_initialized G = false ->
  Init.nlp G = None
  /\ forall text poetic_mode preserve_line_breaks,
      poetic_mode && preserve_line_breaks = false ->
      _tokenize_sentences (Init.backends W G sent_tokenize)
        (Init.current_tokenizer G) text None poetic_mode preserve_line_breaks
      = Ok [fallback_text text None poetic_mode preserve_line_breaks].
Proof.
  cbv zeta.
  unfold Init.start_stream, Init.init_tokenizer.
  cbn [Init.current_tokenizer Init.set_current].
  change (str_eqb (of_string "stanza") (of_string "nltk")) with false.
  change (str_eqb (of_string "stanza") (of_string "stanza")) with true.
  cbv iota.
  intros Hfail.
  destruct (initialize_stanza_failure W
              (Init.set_current Init.fresh (of_string "stanza"))
              language debug eq_refl Hfail) as (Hnlp & Hcur).
  cbn [Init.nlp Init.set_current Init.fresh Init.current_tokenizer] in Hnlp, Hcur.
  split; [exact Hnlp|].
  intros text pm plb Hmode. rewrite Hcur.
  unfold _tokenize_sentences, obtain_sentences, backend_sentences,
    fallback_text, Init.backends.
  change (str_eqb (of_string "stanza") (of_string "nltk")) with false.
  change (str_eqb (of_string "stanza") (of_string "stanza")) with true.
  cbn [import_stanza nlp]. rewrite Hnlp.
  destruct pm; [destruct plb; [discriminate Hmode|]|];
    destruct (Init.import_stanza W); reflexivity.
Qed.

Lemma failed_initialisation_falls_back_witness :
  Init.nlp
    (fst (Init.start_stream
            (Init.Build_library (Ok tt) Init.Found (fun _ => Ok tt) (Ok tt)
               (fun _ => Raise RuntimeError) (fun _ => Ok period_tokenizer))
            Init.fresh (of_string "stanza") (of_string "ru") false))
  = None.
Proof.
  apply (failed_initialisation_falls_back
           (Init.Build_library (Ok tt) Init.Found (fun _ => Ok tt) (Ok tt)
              (fun _ => Raise RuntimeError) (fun _ => Ok period_tokenizer))
           (of_string "ru") false period_tokenizer).
  reflexivity.
Defined.

(** ** More on the boundary heuristic *)

Section BoundaryMore.
Context {L : PyLib}.

(** X7. The heuristic raises [IndexError] exactly for a position from 1 on
    that lies beyond the text; before position 1 and inside the text it
    returns an answer. *)
Theorem boundary_index_error (text : str) (p : Z) :
  (1 <= p -> len text <= p ->
   _is_likely_sentence_boundary text p = Raise IndexError)
  /\ (p < 1 \/ p < len text ->
      exists b, _is_likely_sentence_boundary text p = Ok b).
Proof.
  split.
  - intros H1 H2. unfold _is_likely_sentence_boundary.
    destruct (p <? 1) eqn:E; [lia|].
    rewrite py_index_out_of_range by exact H2. reflexivity.
  - intros [H | H].
    + rewrite boundary_before_one by exact H. eauto.
    + unfold _is_likely_sentence_boundary.
      destruct (p <? 1) eqn:E; [eauto|].
      destruct (py_index_in_range text p ltac:(lia)) as [d Hd].
      rewrite Hd. cbn [bind].
      destruct (N.eqb d COMMA).
      * destruct (len (strip (slice_to text p)) <? 4); [eauto|].
        destruct (split (strip (slice_to text p))) as [|w words] eqn:Ew;
          [eauto|].
        destruct (last_error (w :: words)) as [x|] eqn:El.
        -- apply last_error_split in El as [l Hl]. rewrite Hl, py_index_last.
           cbn [bind]. destruct (len x <=? 3); eauto.
        -- apply last_error_nil_inv in El. discriminate El.
      * destruct (N.eqb d PERIOD); [|eauto].
        destruct (len (slice text (scan_word_start text (Z.to_nat p) + 1) p)
                  <=? 2); [|eauto].
        destruct (p + 1 <? len text) eqn:E2; [|eauto].
        destruct (py_index_in_range text (p + 1) ltac:(lia)) as [x Hx].
        rewrite Hx. cbn [bind]. destruct (isalnum x || N.eqb x PERIOD); eauto.
Qed.

Lemma split_from_nonempty (s cur : str) : cur <> [] -> split_from cur s <> [].
Proof.
  revert cur. induction s as [|c s IH]; intros cur Hne; cbn [split_from].
  - destruct cur; [contradiction | discriminate].
  - destruct (isspace c).
    + destruct cur; [contradiction | discriminate].
    + apply IH. destruct cur; discriminate.
Qed.

Lemma lstrip_head (s : str) (c : char) (r : str) :
  lstrip s = c :: r -> isspace c = false.
Proof.
  unfold lstrip. induction s as [|x s IH]; cbn [dropwhile]; [discriminate|].
  destruct (isspace x) eqn:E; [exact IH|]. intros [= <- _]. exact E.
Qed.

Lemma split_strip_nonempty (s : str) : strip s <> [] -> split s <> [].
Proof.
  intros Hne. rewrite <- split_strip.
  destruct (strip s) as [|c r] eqn:E; [contradiction|].
  pose proof (lstrip_head _ _ _ E) as Hc.
  unfold split. cbn [split_from]. rewrite Hc.
  apply split_from_nonempty. discriminate.
Qed.

(** X8. At a comma in a position from 1 on, the heuristic accepts exactly
    when the stripped text before the comma has at least 4 characters and
    its last word has at least 4. *)
Theorem comma_accepted (text : str) (p : Z) :
  1 <= p ->
  py_index text p = Ok COMMA ->
  exists b,
    _is_likely_sentence_boundary text p = Ok b
    /\ (b = true <->
        4 <= len (strip (slice_to text p))
        /\ exists w, last_error (split (slice_to text p)) = Some w
                     /\ 4 <= len w).
Proof.
  intros Hp Hc. unfold _is_likely_sentence_boundary.
  destruct (p <? 1) eqn:E; [lia|].
  rewrite Hc. cbn [bind]. change (N.eqb COMMA COMMA) with true. cbv iota.
  destruct (len (strip (slice_to text p)) <? 4) eqn:E4.
  - exists false. split; [reflexivity|]. split; [discriminate|].
    intros [H _]. lia.
  - rewrite split_strip.
    assert (Hne : split (slice_to text p) <> []).
    { apply split_strip_nonempty. intros H. rewrite H in E4. discriminate E4. }
    destruct (last_error (split (slice_to text p))) as [x|] eqn:El;
      [|apply last_error_nil_inv in El; contradiction].
    destruct (last_error_split _ _ El) as [l Hl]. rewrite Hl.
    destruct (l ++ [x]) eqn:E5; [destruct l; discriminate|].
    rewrite <- E5, py_index_last. cbn [bind].
    destruct (len x <=? 3) eqn:E3.
    + exists false. split; [reflexivity|]. split; [discriminate|].
      intros (_ & w & [= <-] & Hw). lia.
    + exists true. split; [reflexivity|]. split; [|reflexivity].
      intros _. split; [lia|]. exists x. split; [reflexivity | lia].
Qed.

Lemma py_index_app {A} (s more : list A) (i : Z) :
  0 <= i < len s -> py_index (s ++ more) i = py_index s i.
Proof.
  intros [H1 H2]. unfold py_index. rewrite len_app.
  pose proof (len_nonneg more).
  destruct (i <? 0) eqn:E; [lia|]. rewrite E. cbn [orb].
  destruct (len s + len more <=? i) eqn:E1; [lia|].
  destruct (len s <=? i) eqn:E2; [lia|].
  rewrite nth_error_app1 by (unfold len in H2; lia). reflexivity.
Qed.

Lemma clamp_app {A} (s more : list A) (i : Z) :
  0 <= i <= len s -> clamp (s ++ more) i = clamp s i.
Proof.
  intros H. rewrite !clamp_nonneg; auto.
  rewrite len_app. pose proof (len_nonneg more). lia.
Qed.

Lemma scan_word_start_app (text more : str) (n : nat) :
  (n <= length text)%nat ->
  scan_word_start (text ++ more) n = scan_word_start text n.
Proof.
  induction n as [|k IH]; intros Hn; cbn [scan_word_start]; [reflexivity|].
  rewrite app_nth1 by lia. rewrite IH by lia. reflexivity.
Qed.

Lemma scan_word_start_range (text : str) (n : nat) :
  -1 <= scan_word_start text n < Z.of_nat n.
Proof.
  induction n as [|k IH]; cbn [scan_word_start]; [lia|].
  destruct (is_word_char (nth k text 0%N)); lia.
Qed.

(** X9. Once the character after a position has arrived, the answer for the
    position is settled: text that arrives later does not change it. *)
Theorem boundary_stable (text more : str) (p : Z) :
  p + 1 < len text ->
  _is_likely_sentence_boundary (text ++ more) p
  = _is_likely_sentence_boundary text p.
Proof.
  intros Hp. unfold _is_likely_sentence_boundary.
  destruct (p <? 1) eqn:E; [reflexivity|].
  rewrite py_index_app by lia.
  destruct (py_index text p) as [d|]; cbn [bind]; [|reflexivity].
  assert (Hto : slice_to (text ++ more) p = slice_to text p).
  { unfold slice_to. rewrite clamp_app by lia.
    rewrite clamp_nonneg by lia.
    rewrite firstn_app.
    replace (Z.to_nat p - length text)%nat with 0%nat
      by (unfold len in Hp; lia).
    cbn [firstn]. apply app_nil_r. }
  rewrite Hto.
  rewrite scan_word_start_app by (unfold len in Hp; lia).
  assert (Hsl : slice (text ++ more)
                  (scan_word_start text (Z.to_nat p) + 1) p
                = slice text (scan_word_start text (Z.to_nat p) + 1) p).
  { pose proof (scan_word_start_range text (Z.to_nat p)) as Hr.
    unfold slice. rewrite !clamp_app by lia.
    rewrite !clamp_nonneg by lia.
    rewrite skipn_app, firstn_app.
    rewrite length_skipn.
    replace (Z.to_nat p - Z.to_nat (scan_word_start text (Z.to_nat p) + 1)
             - (length text - Z.to_nat (scan_word_start text (Z.to_nat p) + 1)))%nat
      with 0%nat by (unfold len in Hp; lia).
    cbn [firstn]. apply app_nil_r. }
  rewrite Hsl.
  rewrite (py_index_app text more (p + 1)) by lia.
  rewrite len_app. pose proof (len_nonneg more).
  destruct (p + 1 <? len text) eqn:E1; [|lia].
  destruct (p + 1 <? len text + len more) eqn:E2; [|lia].
  reflexivity.
Qed.

End BoundaryMore.

Lemma boundary_index_error_witness :
  _is_likely_sentence_boundary (L := basic_latin) (of_string "Hi.") 3
  = Raise IndexError.
Proof.
  apply (proj1 (boundary_index_error (L := basic_latin) (of_string "Hi.") 3));
    discriminate.
Defined.

(** The comma of [Well, then] follows a word of four characters. *)
Lemma comma_accepted_witness :
  exists b,
    _is_likely_sentence_boundary (L := basic_latin) (of_string "Well, then") 4
    = Ok b
    /\ (b = true <->
        4 <= len (strip (slice_to (of_string "Well, then") 4))
        /\ exists w,
             last_error (split (slice_to (of_string "Well, then") 4)) = Some w
             /\ 4 <= len w).
Proof.
  apply (comma_accepted (L := basic_latin) (of_string "Well, then") 4).
  - discriminate.
  - reflexivity.
Defined.

Lemma boundary_stable_witness :
  _is_likely_sentence_boundary (L := basic_latin)
    (of_string "e.g" ++ of_string ". this") 1
  = _is_likely_sentence_boundary (L := basic_latin) (of_string "e.g") 1.
Proof.
  apply (boundary_stable (L := basic_latin) (of_string "e.g")
           (of_string ". this") 1).
  reflexivity.
Defined.

(** ** More on the tokenizer adapter *)

Lemma combine_loop_length (sentences : list str) :
  forall (c c' : list str) (t t' : str),
    length c = length c' ->
    sentences <> [] \/ nonempty t = nonempty t' ->
    (length (fst (combine_loop sentences c t))
     + (if nonempty (snd (combine_loop sentences c t)) then 1 else 0)
     = length (fst (combine_loop sentences c' t'))
       + (if nonempty (snd (combine_loop sentences c' t')) then 1 else 0))%nat.
Proof.
  induction sentences as [|s rest IH]; intros c c' t t' Hc Ht;
    cbn [combine_loop fst snd].
  - destruct Ht as [Ht | Ht]; [contradiction|]. rewrite Hc, Ht. reflexivity.
  - destruct (len s <? 10).
    + apply IH; [exact Hc|]. right.
      assert (Hu : forall u : str, nonempty (u ++ s ++ [SPACE]) = true)
        by (intros u; destruct u; [destruct s|]; reflexivity).
      rewrite !Hu. reflexivity.
    + destruct (nonempty t) eqn:E1; destruct (nonempty t') eqn:E2;
        apply IH; rewrite ?length_app, ?Hc; auto;
        right; rewrite ?E1, ?E2; reflexivity.
Qed.

Lemma combine_short_length (l : list str) :
  length (combine_short l)
  = (length (fst (combine_loop l [] []))
     + (if nonempty (snd (combine_loop l [] [])) then 1 else 0))%nat.
Proof.
  unfold combine_short. destruct (combine_loop l [] []) as [c t].
  cbn [fst snd]. destruct (nonempty t); rewrite ?length_app; cbn; lia.
Qed.

Lemma combine_short_cons_long (x : str) (rest : list str) :
  10 <= len x ->
  length (combine_short (x :: rest)) = S (length (combine_short rest)).
Proof.
  intros Hx. change (x :: rest) with ([] ++ x :: rest).
  rewrite (combine_short_run [] x rest); [reflexivity | constructor | exact Hx].
Qed.

Lemma combine_short_cons_short (x : str) (rest : list str) :
  len x < 10 -> rest <> [] ->
  length (combine_short (x :: rest)) = length (combine_short rest).
Proof.
  intros Hx Hne. rewrite !combine_short_length. cbn [combine_loop].
  destruct (len x <? 10) eqn:E; [|lia].
  apply combine_loop_length; auto.
Qed.

Lemma combine_short_count (sentences : list str) :
  (length (combine_short sentences) <= length sentences)%nat
  /\ (short_before_last sentences = true <->
      (length (combine_short sentences) < length sentences)%nat)
  /\ (sentences <> [] -> combine_short sentences <> []).
Proof.
  induction sentences as [|x rest (IH1 & IH2 & IH3)].
  - cbn. repeat split; try lia; try discriminate. contradiction.
  - cbn [short_before_last length].
    destruct (len x <? 10) eqn:Ex.
    + destruct rest as [|y rest'].
      * assert (Hx : combine_short [x] = [strip (join_spaces [x])]).
        { apply combine_short_tail; [repeat constructor; lia | discriminate]. }
        rewrite Hx. cbn. repeat split; try lia; try discriminate.
      * assert (Hne : y :: rest' <> []) by discriminate.
        rewrite (combine_short_cons_short x (y :: rest')) by (auto; lia).
        cbn [nonempty andb orb]. 
        split; [cbn [length] in *; lia|]. split; [split; intros; [cbn [length] in *; lia | reflexivity]|].
        intros _ H.
        apply (f_equal (@length str)) in H.
        rewrite (combine_short_cons_short x (y :: rest')) in H by (auto; lia).
        apply IH3 in Hne. destruct (combine_short (y :: rest')); [contradiction|].
        discriminate H.
    + rewrite combine_short_cons_long by lia. cbn [andb orb].
      split; [lia|]. split; [split|].
      * intros H. apply IH2 in H. lia.
      * intros H. apply IH2. lia.
      * intros _ H. apply (f_equal (@length str)) in H.
        rewrite combine_short_cons_long in H by lia. discriminate H.
Qed.

(** X10. The post-pass takes the merged list exactly when some entry
    shorter than 10 characters has another entry after it; otherwise it
    returns the raw list, not even stripped. *)
Theorem short_sentence_pass_choice (sentences : list str) :
  short_sentence_pass sentences
  = if short_before_last sentences then combine_short sentences
    else sentences.
Proof.
  unfold short_sentence_pass.
  destruct (combine_short_count sentences) as (H1 & H2 & H3).
  destruct (short_before_last sentences) eqn:E.
  - assert (Hlt : (length (combine_short sentences) < length sentences)%nat)
      by (apply H2; reflexivity).
    assert (Hne : sentences <> []) by (intros ->; cbn in Hlt; lia).
    apply H3, nonempty_true in Hne. rewrite Hne.
    destruct (len (combine_short sentences) <? len sentences) eqn:E2;
      [reflexivity | unfold len in E2; lia].
  - destruct (len (combine_short sentences) <? len sentences) eqn:E2.
    + assert (Hlt : (length (combine_short sentences) < length sentences)%nat)
        by (unfold len in E2; lia).
      apply H2 in Hlt. discriminate Hlt.
    + rewrite andb_false_r. reflexivity.
Qed.

(** X11. The post-pass never returns more entries than it was given, returns
    entries whenever it was given some, and neither loses nor adds a
    character other than whitespace. *)
Theorem short_sentence_pass_keeps (sentences : list str) :
  len (short_sentence_pass sentences) <= len sentences
  /\ (sentences <> [] -> short_sentence_pass sentences <> [])
  /\ squash (concat (short_sentence_pass sentences))
     = squash (concat sentences).
Proof.
  unfold short_sentence_pass.
  destruct (nonempty (combine_short sentences)) eqn:E1; cbn [andb];
    [|repeat split; [lia | auto]].
  destruct (len (combine_short sentences) <? len sentences) eqn:E2;
    [|repeat split; [lia | auto]].
  repeat split.
  - lia.
  - intros _. apply nonempty_true. exact E1.
  - apply combine_short_squash.
Qed.

Lemma short_sentence_pass_keeps_witness :
  short_sentence_pass [of_string "Hi."; of_string "A longer sentence."] <> [].
Proof.
  apply (proj1 (proj2 (short_sentence_pass_keeps
                         [of_string "Hi."; of_string "A longer sentence."]))).
  discriminate.
Defined.

Lemma dropwhile_incl {A} (p : A -> bool) (s : list A) (x : A) :
  In x (dropwhile p s) -> In x s.
Proof.
  induction s as [|c s IH]; cbn [dropwhile]; [auto|].
  destruct (p c); [intros H; right; auto | auto].
Qed.

Lemma strip_incl (s : str) (x : char) : In x (strip s) -> In x s.
Proof.
  unfold strip, lstrip, rstrip. intros H.
  apply dropwhile_incl, in_rev, dropwhile_incl, in_rev in H. exact H.
Qed.

(** The characters of the merged entries are characters of the sentences,
    or spaces. *)
Lemma combine_loop_chars (P : char -> Prop) (sentences : list str) :
  P SPACE ->
  (forall s c, In s sentences -> In c s -> P c) ->
  forall combined temp,
    (forall e c, In e combined -> In c e -> P c) ->
    (forall c, In c temp -> P c) ->
    (forall e c, In e (fst (combine_loop sentences combined temp)) ->
                 In c e -> P c)
    /\ (forall c, In c (snd (combine_loop sentences combined temp)) -> P c).
Proof.
  intros Hsp. induction sentences as [|s rest IH];
    intros Hs combined temp Hc Ht; cbn [combine_loop fst snd].
  - auto.
  - assert (Hrest : forall s' c, In s' rest -> In c s' -> P c)
      by (intros s' c H; apply Hs; right; exact H).
    assert (Hhead : forall c, In c s -> P c)
      by (intros c; apply Hs; left; reflexivity).
    destruct (len s <? 10).
    + apply IH; auto. intros c H.
      apply in_app_or in H as [H | H]; [auto|].
      apply in_app_or in H as [H | [<- | []]]; auto.
    + destruct (nonempty temp); apply IH; auto.
      * intros e c H Hin. apply in_app_or in H as [H | [<- | []]];
          [eapply Hc; eauto|].
        apply strip_incl, in_app_or in Hin as [Hin | Hin]; auto.
      * intros c [].
      * intros e c H Hin. apply in_app_or in H as [H | [<- | []]];
          [eapply Hc; eauto|].
        apply strip_incl in Hin. auto.
Qed.

Lemma short_sentence_pass_chars (P : char -> Prop) (sentences : list str) :
  P SPACE ->
  (forall s c, In s sentences -> In c s -> P c) ->
  forall e c, In e (short_sentence_pass sentences) -> In c e -> P c.
Proof.
  intros Hsp Hs. unfold short_sentence_pass.
  destruct (nonempty (combine_short sentences)
            && (len (combine_short sentences) <? len sentences));
    [|exact Hs].
  unfold combine_short.
  destruct (combine_loop_chars P sentences Hsp Hs (@nil str) (@nil char))
    as [H1 H2]; [intros e c [] | intros c [] |].
  revert H1 H2. destruct (combine_loop sentences [] []) as [combined temp].
  cbn [fst snd]. intros H1 H2. destruct (nonempty temp); [|exact H1].
  intros e c H Hin. apply in_app_or in H as [H | [<- | []]];
    [eapply H1; eauto|].
  apply strip_incl in Hin. auto.
Qed.

Lemma split_on_no_separator (sep : char) (s cur : str) :
  ~ In sep cur ->
  forall line, In line (split_on_from sep cur s) -> ~ In sep line.
Proof.
  revert cur. induction s as [|c s IH]; intros cur Hcur line;
    cbn [split_on_from].
  - intros [<- | []]. exact Hcur.
  - destruct (N.eqb c sep) eqn:E.
    + intros [<- | H]; [exact Hcur|]. apply (IH []); auto.
    + apply IH. intros H. apply in_app_or in H as [H | [<- | []]];
        [contradiction|].
      rewrite N.eqb_refl in E. discriminate E.
Qed.

(** X12. In poetic mode with line breaks and without a callback, the
    adapter consults no backend and does not depend on the tokenizer
    selected: it returns the lines that are not blank, short ones merged
    by the post-pass, so that no entry holds a newline and the entries make
    up the text, whitespace aside; a text without such a line comes back
    alone. *)
Theorem poetic_lines (B : Backends) (current_tokenizer text : str) :
  exists l,
    _tokenize_sentences B current_tokenizer text None true true = Ok l
    /\ (forall B' current_tokenizer',
           _tokenize_sentences B' current_tokenizer' text None true true = Ok l)
    /\ squash (concat l) = squash text
    /\ (l = [text] \/ forall e, In e l -> ~ In NEWLINE e).
Proof.
  unfold _tokenize_sentences, obtain_sentences.
  set (lines := filter (fun line => nonempty (strip line))
                  (split_on NEWLINE text)).
  assert (Hsq : squash (concat lines) = squash text).
  { subst lines. rewrite blank_lines_squash.
    apply (split_on_squash NEWLINE text []). reflexivity. }
  assert (Hnl : forall e c, In e (short_sentence_pass lines) -> In c e ->
                            c <> NEWLINE).
  { apply short_sentence_pass_chars; [discriminate|].
    intros s c Hs Hc ->. subst lines. apply filter_In in Hs as [Hs _].
    apply (split_on_no_separator NEWLINE text []) in Hs; auto. }
  destruct (nonempty (short_sentence_pass lines)) eqn:E.
  - eexists. split; [reflexivity|]. split; [reflexivity|]. split.
    + rewrite short_sentence_pass_squash. exact Hsq.
    + right. intros e He Hin. apply (Hnl e NEWLINE He Hin). reflexivity.
  - eexists. split; [reflexivity|]. split; [reflexivity|]. split.
    + cbn [concat]. rewrite app_nil_r. reflexivity.
    + left. reflexivity.
Qed.

(** ** More on the generator *)

Lemma dropwhile_last {A} (p : A -> bool) (s : list A) :
  dropwhile p s = [] \/ exists pre, s = pre ++ dropwhile p s
                                    /\ dropwhile p s <> [].
Proof.
  induction s as [|c s IH]; cbn [dropwhile]; [left; reflexivity|].
  destruct (p c).
  - destruct IH as [IH | (pre & H1 & H2)]; [left; exact IH|].
    right. exists (c :: pre). split; [cbn; f_equal; exact H1 | exact H2].
  - right. exists []. split; [reflexivity | discriminate].
Qed.

Lemma trimmed_strip (s : str) : trimmed (strip s).
Proof.
  unfold trimmed, strip. split.
  - destruct (lstrip (rstrip s)) as [|c r] eqn:E; [exact I|].
    apply lstrip_head in E. exact E.
  - unfold lstrip.
    destruct (dropwhile_last isspace (rstrip s)) as [-> | (pre & H1 & H2)];
      [exact I|].
    assert (Hr : match rev (rstrip s) with
                 | [] => True
                 | c :: _ => isspace c = false
                 end).
    { unfold rstrip. rewrite rev_involutive.
      destruct (dropwhile isspace (rev s)) as [|c r] eqn:E; [exact I|].
      apply (lstrip_head (rev s) c r). exact E. }
    rewrite H1, rev_app_distr in Hr.
    destruct (rev (dropwhile isspace (rstrip s))) as [|c r] eqn:E; [exact I|].
    exact Hr.
Qed.

Section LoopMore.
Context {L : PyLib}.
Variable B : Backends.
Variable cfg : config.

Lemma trimmed_clean (text : str) : trimmed (clean cfg text).
Proof. unfold clean, _clean_text. apply trimmed_strip. Qed.

Lemma validated_trimmed (front : list str) :
  Forall yields_trimmed (validated cfg front).
Proof.
  unfold validated. induction front as [|s front IH]; cbn [flat_map];
    [constructor|].
  destruct (minimum_sentence_length cfg / 2 <=? len s); cbn [app]; [|exact IH].
  constructor; [apply trimmed_clean | exact IH].
Qed.

(** X13. Whatever the configuration and the tokenizer, no fragment that the
    generator yields, mid-stream or at the end, starts or ends with
    whitespace. *)
Theorem fragments_trimmed (generator : list str) (evs : list event) :
  generate_sentences_async B cfg generator = Ok evs ->
  forall f, In f (fragments evs) -> trimmed f.
Proof.
  unfold generate_sentences_async.
  destruct (run B cfg initial (_generate_characters generator))
    as [[st midstream]|] eqn:E1; cbn [bind fst snd]; [|discriminate].
  destruct (finish B cfg st) as [final|] eqn:E2; cbn [bind]; [|discriminate].
  intros [= <-].
  assert (Hmid : Forall yields_trimmed midstream).
  { apply (run_invariant B cfg (fun _ => True) yields_trimmed)
      with (chars := _generate_characters generator) (st := initial)
           (st' := st); auto.
    intros s c s' e _ He. split; [exact I|].
    destruct (step_outcome B cfg _ _ _ _ He).
    - constructor.
    - constructor; [apply trimmed_clean | constructor].
    - constructor.
    - constructor; [apply trimmed_clean | constructor].
    - constructor; [exact I | constructor].
    - constructor; [exact I | apply validated_trimmed]. }
  assert (Hfin : Forall yields_trimmed final).
  { unfold finish in E2. destruct (nonempty (buffer st)).
    - destruct (tokenize B cfg (buffer st)) as [sentences|]; cbn [bind] in E2;
        [|discriminate].
      destruct (drain cfg sentences []) as [evs' remaining] eqn:Ed.
      injection E2 as <-.
      destruct (drain_spec cfg _ _ _ _ Ed) as (pieces & -> & _ & _).
      constructor; [exact I|]. apply Forall_app. split.
      + apply Forall_forall. intros e He.
        apply in_map_iff in He as (p & <- & _). apply trimmed_clean.
      + destruct (nonempty remaining); constructor;
          [apply trimmed_clean | constructor].
    - injection E2 as <-. constructor. }
  intros f Hf. unfold fragments in Hf. apply in_flat_map in Hf as (e & He & Hf).
  assert (Hall : Forall yields_trimmed (midstream ++ final))
    by (apply Forall_app; auto).
  rewrite Forall_forall in Hall. specialize (Hall e He).
  destruct e as [o f'|]; [|destruct Hf].
  destruct Hf as [<- | []]. exact Hall.
Qed.

(** X14. A stream made only of characters that the leading filter skips
    (neither alphanumeric nor an opening quote or bracket) yields nothing
    and never reaches the tokenizer. *)
Theorem skipped_stream_is_silent (generator : list str) :
  filter_first_non_alnum_characters cfg = true ->
  Forall (fun c => isalnum c = false /\ char_in c OPENING = false)
    (concat generator) ->
  generate_sentences_async B cfg generator = Ok [].
Proof.
  intros Hfilter Hall. unfold generate_sentences_async, _generate_characters.
  assert (Hrun : run B cfg initial (concat generator) = Ok (initial, [])).
  { induction Hall as [|c chars [Hc1 Hc2] _ IH]; [reflexivity|].
    cbn [run]. unfold step, leading_filtered.
    cbn [buffer initial]. rewrite Hfilter, Hc1, Hc2.
    cbn [len length Z.of_nat Z.eqb andb negb bind fst snd].
    rewrite IH. reflexivity. }
  rewrite Hrun. reflexivity.
Qed.

Lemma no_forced_in_validated (front : list str) (f : str) :
  ~ In (Yield Forced f) (validated cfg front).
Proof.
  unfold validated. intros H. apply in_flat_map in H as (s & _ & H).
  destruct (minimum_sentence_length cfg / 2 <=? len s); [|destruct H].
  destruct H as [H | []]. discriminate H.
Qed.

(** X15. With a limit that is not negative, a forced fragment is the cleaned
    form of exactly [max_buffer_size // 2] characters, and these followed by
    the buffer that the split leaves are the buffer before the split; if
    the buffer was within the limit before the character, the split leaves
    [max_buffer_size + 1 - max_buffer_size // 2] characters. *)
Theorem forced_fragment_size (st st' : state) (c : char) (evs : list event)
  (f : str) :
  0 <= max_buffer_size cfg ->
  step B cfg st c = Ok (st', evs) ->
  In (Yield Forced f) evs ->
  exists raw,
    f = clean cfg raw
    /\ len raw = max_buffer_size cfg / 2
    /\ raw ++ buffer st' = lstrip (buffer st ++ [c])
    /\ (len (buffer st) <= max_buffer_size cfg ->
        len (buffer st')
        = max_buffer_size cfg + 1 - max_buffer_size cfg / 2).
Proof.
  intros Hmax Hstep Hin.
  destruct (step_outcome B cfg _ _ _ _ Hstep)
    as [ | st' _ Hover Hbuf | | | | st' front last_sentence ].
  - destruct Hin.
  - destruct Hin as [[= <-] | []].
    assert (Hhalf : 0 <= max_buffer_size cfg / 2 <= len (appended st c)).
    { split; [apply Z.div_pos; lia|].
      assert (max_buffer_size cfg / 2 <= max_buffer_size cfg)
        by (apply Z.div_le_upper_bound; lia).
      lia. }
    exists (slice_to (appended st c) (max_buffer_size cfg / 2)).
    split; [reflexivity|]. split; [|split].
    + rewrite slice_to_firstn by exact Hhalf. unfold len in *.
      rewrite length_firstn. lia.
    + rewrite Hbuf. apply slice_to_from.
    + intros Hst. pose proof (appended_len st c) as Happ.
      rewrite Hbuf, slice_from_skipn by exact Hhalf.
      unfold len in *. rewrite length_skipn. lia.
  - destruct Hin.
  - destruct Hin as [Hin | []]. discriminate Hin.
  - destruct Hin as [Hin | []]. discriminate Hin.
  - destruct Hin as [Hin | Hin]; [discriminate Hin|].
    apply no_forced_in_validated in Hin. destruct Hin.
Qed.

(** X16. At the end of the stream an empty buffer yields nothing and the
    tokenizer is not called. When the adapter returns one sentence for the
    buffer that is left, and emoji cleaning is off, the drain yields that
    sentence, stripped, as its only fragment, whatever the minimum sentence
    length. *)
Theorem finish_single_sentence (st : state) :
  (buffer st = [] -> finish B cfg st = Ok [])
  /\ (forall sentence,
        buffer st <> [] ->
        cleanup_text_emojis cfg = false ->
        tokenize B cfg (buffer st) = Ok [sentence] ->
        finish B cfg st
        = Ok [Tokenize (buffer st); Yield Final (strip sentence)]).
Proof.
  unfold finish. split.
  - intros ->. reflexivity.
  - intros sentence Hne Hclean Htok.
    apply nonempty_true in Hne. rewrite Hne, Htok. cbn [bind drain app].
    unfold clean, _clean_text. rewrite Hclean.
    destruct (len sentence <? minimum_sentence_length cfg).
    + cbn [app]. replace (nonempty (sentence ++ [SPACE])) with true
        by (destruct sentence; reflexivity).
      rewrite strip_app_space by reflexivity. reflexivity.
    + reflexivity.
Qed.

Lemma drain_count (sentences : list str) :
  forall sentence_buffer,
    (length (fst (drain cfg sentences sentence_buffer))
     + (if nonempty (snd (drain cfg sentences sentence_buffer)) then 1 else 0)
     <= length sentences + (if nonempty sentence_buffer then 1 else 0))%nat.
Proof.
  induction sentences as [|s rest IH]; intros sb; cbn [drain fst snd length].
  - lia.
  - destruct (len (sb ++ s) <? minimum_sentence_length cfg).
    + specialize (IH ((sb ++ s) ++ [SPACE])).
      replace (nonempty ((sb ++ s) ++ [SPACE])) with true in IH
        by (destruct (sb ++ s); reflexivity).
      destruct (nonempty sb); lia.
    + specialize (IH []). destruct (drain cfg rest []) as [evs remaining].
      cbn [fst snd length nonempty] in *. destruct (nonempty sb); lia.
Qed.

Lemma drain_long (sentences : list str) :
  Forall (fun s => minimum_sentence_length cfg <= len s) sentences ->
  drain cfg sentences []
  = (map (fun s => Yield Final (clean cfg s)) sentences, []).
Proof.
  induction 1 as [|s rest Hs _ IH]; cbn [drain map app]; [reflexivity|].
  destruct (len s <? minimum_sentence_length cfg) eqn:E; [lia|].
  rewrite IH. reflexivity.
Qed.

(** X17. The final drain yields at most as many fragments as the adapter
    returned sentences, and when every sentence is at least
    [minimum_sentence_length] long it yields each of them, cleaned, as a
    fragment of its own, in order. *)
Theorem finish_fragments (st : state) (sentences : list str)
  (final : list event) :
  tokenize B cfg (buffer st) = Ok sentences ->
  finish B cfg st = Ok final ->
  (length (fragments final) <= length sentences)%nat
  /\ (buffer st <> [] ->
      Forall (fun s => minimum_sentence_length cfg <= len s) sentences ->
      fragments final = map (clean cfg) sentences).
Proof.
  intros Htok. unfold finish.
  destruct (nonempty (buffer st)) eqn:Hne.
  - rewrite Htok. cbn [bind]. intros H. split.
    + pose proof (drain_count sentences []) as Hc.
      destruct (drain cfg sentences []) as [evs remaining] eqn:Ed.
      destruct (drain_spec cfg _ _ _ _ Ed) as (pieces & -> & _ & _).
      injection H as <-. cbn [fst snd nonempty] in Hc.
      cbn [fragments flat_map app].
      change (flat_map _ ?l) with (fragments l).
      rewrite fragments_app, length_app.
      assert (Hp : length (fragments (map (fun p => Yield Final (clean cfg p))
                                        pieces))
                   = length (map (fun p => Yield Final (clean cfg p)) pieces)).
      { clear. induction pieces as [|p pieces IH]; [reflexivity|].
        cbn [map fragments flat_map app length] in *. f_equal. exact IH. }
      rewrite Hp. destruct (nonempty remaining); cbn [length fragments flat_map app];
        lia.
    + intros _ Hlong. rewrite (drain_long sentences Hlong) in H.
      injection H as <-. cbn [nonempty app fragments flat_map].
      rewrite app_nil_r. clear.
      induction sentences as [|s rest IH]; [reflexivity|].
      cbn [map flat_map app]. f_equal. exact IH.
  - intros [= <-]. split; [cbn; lia|].
    intros Hb. destruct (buffer st); [contradiction | discriminate].
Qed.

(** X19. With the leading filter off and a minimum first-fragment length
    of 0 or less, a stream that starts with a whitespace character raises
    [IndexError] at once: the buffer is empty after the strip and the
    first-fragment logic reads its last character. *)
Theorem empty_buffer_index_error (c : char) (rest : str)
  (chunks : list str) :
  filter_first_non_alnum_characters cfg = false ->
  single_sentence_fragment cfg = true ->
  minimum_first_fragment_length cfg <= 0 ->
  0 <= max_buffer_size cfg ->
  isspace c = true ->
  generate_sentences_async B cfg ((c :: rest) :: chunks) = Raise IndexError.
Proof.
  intros Hfilter Hquick Hlen Hmax Hc.
  unfold generate_sentences_async, _generate_characters.
  cbn [concat app run]. unfold step, leading_filtered, first_fragment_logic.
  rewrite Hfilter, andb_false_r. cbn [andb buffer initial app lstrip dropwhile].
  rewrite Hc. cbn [dropwhile len length Z.of_nat is_first_sentence].
  destruct (max_buffer_size cfg <? 0) eqn:E; [lia|].
  destruct (minimum_first_fragment_length cfg <=? 0) eqn:E2; [|lia].
  rewrite Hquick. reflexivity.
Qed.


Lemma no_tokenize_in_validated (front : list str) (t : str) :
  ~ In (Tokenize t) (validated cfg front).
Proof.
  unfold validated. intros H. apply in_flat_map in H as (s & _ & H).
  destruct (minimum_sentence_length cfg / 2 <=? len s); [|destruct H].
  destruct H as [H | []]. discriminate H.
Qed.

Lemma lookback_asks (st st' : state) (c : char) (buf : str) (wc cs : Z)
  (evs : list event) (t : str) :
  lookback B cfg st c buf wc cs = Ok (st', evs) ->
  In (Tokenize t) evs ->
  t = buf
  /\ context_size cfg < len buf
  /\ min_chars_after_delimiter cfg <= context_size cfg - 1
  /\ exists d,
       py_index buf (- context_size cfg) = Ok d
       /\ (char_in d (full_sentence_delimiters cfg) = true
           \/ char_in d (of_string ";:,") = true)
       /\ (if strict_punctuation_mode cfg
           then char_in d (sentence_fragment_delimiters cfg) = true
           else char_in d IGNORED_DELIMITERS = false)
       /\ _is_likely_sentence_boundary buf (len buf - context_size cfg)
          = Ok true.
Proof.
  unfold lookback, full_sentence_delims_set, sentence_fragment_delims_set.
  cbv zeta.
  destruct (context_size cfg <? len buf) eqn:Hlen;
    [|intros [= <- <-] []].
  destruct (py_index buf (- context_size cfg)) as [d|] eqn:Hd;
    cbn [bind]; [|discriminate].
  destruct (if strict_punctuation_mode cfg
            then negb (char_in d (sentence_fragment_delimiters cfg))
            else char_in d IGNORED_DELIMITERS) eqn:Hmode;
    [intros [= <- <-] []|].
  destruct (char_in d (full_sentence_delimiters cfg)
            || char_in d (of_string ";:,")) eqn:Hdelim;
    [|intros [= <- <-] []].
  destruct (context_size cfg - 1 <? min_chars_after_delimiter cfg) eqn:Hgate;
    [intros [= <- <-] []|].
  destruct (_is_likely_sentence_boundary buf (len buf - context_size cfg))
    as [likely|] eqn:Hlikely; cbn [bind]; [|discriminate].
  destruct likely; cbn [negb]; [|intros [= <- <-] []].
  assert (Hgoal : forall t', In (Tokenize t') [Tokenize buf] \/ t' = buf ->
                             t' = buf -> 
    t' = buf
    /\ context_size cfg < len buf
    /\ min_chars_after_delimiter cfg <= context_size cfg - 1
    /\ exists d0,
         Ok d = Ok d0
         /\ (char_in d0 (full_sentence_delimiters cfg) = true
             \/ char_in d0 (of_string ";:,") = true)
         /\ (if strict_punctuation_mode cfg
             then char_in d0 (sentence_fragment_delimiters cfg) = true
             else char_in d0 IGNORED_DELIMITERS = false)
         /\ Ok true = Ok true).
  { intros t' _ ->. split; [reflexivity|]. split; [lia|]. split; [lia|].
    exists d. split; [reflexivity|]. split; [apply orb_prop; exact Hdelim|].
    split; [|reflexivity].
    destruct (strict_punctuation_mode cfg);
      [apply negb_false_iff; exact Hmode | exact Hmode]. }
  match goal with
  | |- context [bind ?m _] => destruct m as [interval|]; cbn [bind]
  end; [|discriminate].
  destruct (tokenization_counter st + 1 <? interval);
    [intros [= <- <-] []|].
  destruct (tokenize B cfg buf) as [sentences|]; cbn [bind]; [|discriminate].
  destruct (1 <? len sentences);
    [|intros [= <- <-] [[= <-] | []]; apply Hgoal; auto].
  destruct (minimum_sentence_length cfg
            <=? total_length (slice_to sentences (-1)));
    [|intros [= <- <-] [[= <-] | []]; apply Hgoal; auto].
  destruct (py_index sentences (-1)) as [last_sentence|]; cbn [bind];
    [|discriminate].
  intros [= <- <-] [[= <-] | Hin]; [apply Hgoal; auto|].
  apply no_tokenize_in_validated in Hin. destruct Hin.
Qed.

(** X20. Mid-stream, the tokenizer is called only on the whole buffer, and
    only in an iteration that neither split the buffer by force nor yielded
    a first fragment, with a buffer longer than
    [minimum_sentence_length + context_size], a lookback guard that passes,
    and, [context_size] characters from the end of the buffer, a character
    that is a full-sentence delimiter or one of semicolon, colon and comma,
    that passes the test of the punctuation mode, and that the boundary
    heuristic accepts. *)
Theorem tokenizer_called_only_at_boundary (st st' : state) (c : char)
  (evs : list event) (t : str) :
  step B cfg st c = Ok (st', evs) ->
  In (Tokenize t) evs ->
  t = lstrip (buffer st ++ [c])
  /\ (forall o f, ~ In (Yield o f) evs \/ o = Validated)
  /\ len t <= max_buffer_size cfg
  /\ minimum_sentence_length cfg + context_size cfg < len t
  /\ min_chars_after_delimiter cfg <= context_size cfg - 1
  /\ exists d,
       py_index t (- context_size cfg) = Ok d
       /\ (char_in d (full_sentence_delimiters cfg) = true
           \/ char_in d (of_string ";:,") = true)
       /\ (if strict_punctuation_mode cfg
           then char_in d (sentence_fragment_delimiters cfg) = true
           else char_in d IGNORED_DELIMITERS = false)
       /\ _is_likely_sentence_boundary t (len t - context_size cfg) = Ok true.
Proof.
  intros Hstep Hin.
  assert (Hyield : forall o f, ~ In (Yield o f) evs \/ o = Validated).
  { intros o f.
    destruct (step_outcome B cfg _ _ _ _ Hstep)
      as [ | | | | | st' front last_sentence ].
    - destruct Hin.
    - destruct Hin as [Hin | []]. discriminate Hin.
    - destruct Hin.
    - destruct Hin as [Hin | []]. discriminate Hin.
    - left. intros [K | []]. discriminate K.
    - destruct o; [left | left | right; reflexivity | left];
        (intros [K | K]; [discriminate K|]);
        unfold validated in K; apply in_flat_map in K as (s & _ & K);
        (destruct (minimum_sentence_length cfg / 2 <=? len s);
         [destruct K as [K | []]; discriminate K | destruct K]). }
  revert Hstep. unfold step.
  destruct (leading_filtered cfg st c); [intros [= <- <-]; destruct Hin|].
  cbv zeta.
  destruct (max_buffer_size cfg <? len (lstrip (buffer st ++ [c]))) eqn:Hmax;
    [intros [= <- <-]; destruct Hin as [Hin | []]; discriminate Hin|].
  pose proof (first_fragment_cases cfg st c (lstrip (buffer st ++ [c]))
                (counted_words cfg st c) (counted_chars_since cfg st c))
    as Hcases.
  destruct (first_fragment_logic cfg st c (lstrip (buffer st ++ [c]))
              (counted_words cfg st c) (counted_chars_since cfg st c))
    as [[[st1 evs1]|]|]; cbn [bind]; [| |discriminate].
  - intros [= <- <-].
    destruct Hcases as [[_ ->] | (_ & -> & _)];
      [destruct Hin | destruct Hin as [Hin | []]; discriminate Hin].
  - destruct (len (lstrip (buffer st ++ [c]))
              <=? minimum_sentence_length cfg + context_size cfg) eqn:Hgate;
      [intros [= <- <-]; destruct Hin|].
    intros Hlook.
    destruct (lookback_asks _ _ _ _ _ _ _ _ Hlook Hin)
      as (-> & H1 & H2 & H3).
    repeat split; auto; lia.
Qed.

Ltac branch_inner :=
  match goal with
  | |- context [if ?b then _ else _] => destruct b eqn:?
  | |- context [bind ?m _] =>
      lazymatch m with
      | bind _ _ => fail
      | if _ then _ else _ => fail
      | _ => destruct m eqn:?
      end
  end; cbn [bind].

Lemma lookback_same (st1 st2 : state) (c : char) (buf : str)
  (wc cs1 cs2 : Z) :
  same_visible st1 st2 ->
  same_result (lookback B cfg st1 c buf wc cs1)
    (lookback B cfg st2 c buf wc cs2).
Proof.
  intros (Hb & Hf & Hw & Ht). unfold lookback. cbv zeta.
  rewrite <- Hf, <- Ht.
  repeat branch_inner; cbn [same_result]; unfold same_visible;
    cbn [buffer is_first_sentence word_count tokenization_counter];
    auto.
Qed.

Lemma first_fragment_same (st1 st2 : state) (c : char) (buf : str)
  (wc cs1 cs2 : Z) :
  same_visible st1 st2 ->
  match first_fragment_logic cfg st1 c buf wc cs1,
        first_fragment_logic cfg st2 c buf wc cs2 with
  | Ok (Some r1), Ok (Some r2) => same_result (Ok r1) (Ok r2)
  | Ok None, Ok None => True
  | Raise e1, Raise e2 => e1 = e2
  | _, _ => False
  end.
Proof.
  intros (Hb & Hf & Hw & Ht). unfold first_fragment_logic, carried.
  rewrite <- Hf, <- Ht.
  repeat branch_inner; cbn [same_result]; unfold same_visible;
    cbn [buffer is_first_sentence word_count tokenization_counter];
    auto.
Qed.

Lemma step_same (st1 st2 : state) (c : char) :
  same_visible st1 st2 ->
  same_result (step B cfg st1 c) (step B cfg st2 c).
Proof.
  intros Hs. pose proof Hs as (Hb & Hf & Hw & Ht).
  unfold step, leading_filtered, counted_words. cbv zeta.
  rewrite <- Hb, <- Hw.
  destruct ((len (buffer st1) =? 0) && filter_first_non_alnum_characters cfg
            && negb (isalnum c) && negb (char_in c OPENING)).
  - cbn [same_result]. auto.
  - destruct (max_buffer_size cfg <? len (lstrip (buffer st1 ++ [c]))).
    + cbn [same_result]. unfold same_visible.
      cbn [buffer is_first_sentence word_count tokenization_counter]. auto.
    + pose proof (first_fragment_same st1 st2 c (lstrip (buffer st1 ++ [c]))
                    (if counts_as_word_end cfg c then word_count st1 + 1
                     else word_count st1)
                    (counted_chars_since cfg st1 c)
                    (counted_chars_since cfg st2 c) Hs) as Hfirst.
      destruct (first_fragment_logic cfg st1 c _ _ _) as [[r1|]|e1];
        destruct (first_fragment_logic cfg st2 c _ _ _) as [[r2|]|e2];
        try contradiction; cbn [bind]; auto.
      destruct (len (lstrip (buffer st1 ++ [c]))
                <=? minimum_sentence_length cfg + context_size cfg).
      * cbn [same_result]. unfold same_visible, carried.
        cbn [buffer is_first_sentence word_count tokenization_counter]. auto.
      * apply lookback_same. exact Hs.
Qed.

(** X21. The loop writes [last_delimiter_position], [fragment_count] and
    [chars_since_last_strong_delim] and never reads them: from two states
    that differ in nothing else, any stream gives the same events or the
    same exception, leaves the states equal on everything else, and the
    final drain gives the same events. *)
Theorem written_only_counters (st1 st2 : state) (chars : str) :
  same_visible st1 st2 ->
  same_result (run B cfg st1 chars) (run B cfg st2 chars)
  /\ finish B cfg st1 = finish B cfg st2.
Proof.
  intros Hs. split.
  - revert st1 st2 Hs. induction chars as [|c chars IH]; intros st1 st2 Hs;
      cbn [run].
    + cbn [same_result]. auto.
    + pose proof (step_same st1 st2 c Hs) as Hstep.
      destruct (step B cfg st1 c) as [[s1 e1]|x1];
        destruct (step B cfg st2 c) as [[s2 e2]|x2];
        cbn [same_result] in Hstep; try contradiction; cbn [bind fst snd];
        [|exact Hstep].
      destruct Hstep as [Hs' ->]. specialize (IH s1 s2 Hs').
      destruct (run B cfg s1 chars) as [[s1' e1']|y1];
        destruct (run B cfg s2 chars) as [[s2' e2']|y2];
        cbn [same_result] in IH; try contradiction; cbn [bind fst snd];
        [|exact IH].
      destruct IH as [Hs'' ->]. cbn [same_result]. auto.
  - destruct Hs as (Hb & _). unfold finish. rewrite Hb. reflexivity.
Qed.

Lemma count_first_app (a b : list event) :
  count_first (a ++ b) = (count_first a + count_first b)%nat.
Proof. unfold count_first. rewrite filter_app, length_app. reflexivity. Qed.

Lemma count_first_validated (front : list str) :
  count_first (validated cfg front) = 0%nat.
Proof.
  unfold validated. induction front as [|s front IH]; [reflexivity|].
  cbn [flat_map]. rewrite count_first_app, IH.
  destruct (minimum_sentence_length cfg / 2 <=? len s); reflexivity.
Qed.

Lemma step_first_count (st st' : state) (c : char) (evs : list event) :
  for_all_sentences cfg = false ->
  step B cfg st c = Ok (st', evs) ->
  (count_first evs + Nat.b2n (is_first_sentence st')
   = Nat.b2n (is_first_sentence st))%nat.
Proof.
  intros Hall. unfold step, first_fragment_logic, lookback, carried.
  cbv zeta. rewrite Hall.
  assert (Hq : quick_yield_every_fragment cfg = false).
  { unfold for_all_sentences in Hall. apply orb_false_elim in Hall. tauto. }
  rewrite Hq.
  destruct (is_first_sentence st) eqn:Hfirst; cbn [andb];
    repeat branch_inner; try discriminate; intros [= <- <-];
    cbn [is_first_sentence count_first filter length Nat.b2n];
    try reflexivity;
    try (change (Datatypes.length (filter _ (validated cfg ?f)))
           with (count_first (validated cfg f));
         rewrite count_first_validated; rewrite ?Hfirst; reflexivity);
    try (rewrite Hfirst; reflexivity).
Qed.

Lemma run_first_count (chars : str) :
  for_all_sentences cfg = false ->
  forall st st' evs,
    run B cfg st chars = Ok (st', evs) ->
    (count_first evs + Nat.b2n (is_first_sentence st')
     = Nat.b2n (is_first_sentence st))%nat.
Proof.
  intros Hall. induction chars as [|c chars IH]; intros st st' evs;
    cbn [run].
  - intros [= <- <-]. reflexivity.
  - destruct (step B cfg st c) as [[st1 evs1]|] eqn:E1; cbn [bind fst snd];
      [|discriminate].
    destruct (run B cfg st1 chars) as [[st2 evs2]|] eqn:E2; cbn [bind fst snd];
      [|discriminate].
    intros [= <- <-]. rewrite count_first_app.
    pose proof (step_first_count _ _ _ _ Hall E1).
    pose proof (IH _ _ _ E2). lia.
Qed.

(** X22. When neither [quick_yield_for_all_sentences] nor
    [quick_yield_every_fragment] is set, a stream yields at most one first
    fragment, and first-fragment mode is off after the loop exactly when
    that fragment was yielded. *)
Theorem at_most_one_first_fragment (generator : list str)
  (evs : list event) :
  for_all_sentences cfg = false ->
  generate_sentences_async B cfg generator = Ok evs ->
  (count_first evs <= 1)%nat
  /\ forall st midstream,
      run B cfg initial (_generate_characters generator) = Ok (st, midstream) ->
      count_first midstream = count_first evs
      /\ (is_first_sentence st = false <-> count_first evs = 1%nat).
Proof.
  intros Hall. unfold generate_sentences_async.
  destruct (run B cfg initial (_generate_characters generator))
    as [[st midstream]|] eqn:E1; cbn [bind fst snd]; [|discriminate].
  destruct (finish B cfg st) as [final|] eqn:E2; cbn [bind]; [|discriminate].
  intros [= <-].
  assert (Hfinal : count_first final = 0%nat).
  { unfold finish in E2. destruct (nonempty (buffer st));
      [|injection E2 as <-; reflexivity].
    destruct (tokenize B cfg (buffer st)) as [sentences|]; cbn [bind] in E2;
      [|discriminate].
    destruct (drain cfg sentences []) as [evs' remaining] eqn:Ed.
    injection E2 as <-.
    destruct (drain_spec cfg _ _ _ _ Ed) as (pieces & -> & _ & _).
    change (Tokenize (buffer st) :: ?l) with ([Tokenize (buffer st)] ++ l).
    rewrite !count_first_app.
    assert (Hp : count_first (map (fun p => Yield Final (clean cfg p)) pieces)
                 = 0%nat).
    { clear. induction pieces as [|p pieces IH]; [reflexivity | exact IH]. }
    rewrite Hp. destruct (nonempty remaining); reflexivity. }
  pose proof (run_first_count _ Hall _ _ _ E1) as Hcount.
  cbn [is_first_sentence initial Nat.b2n] in Hcount.
  rewrite count_first_app, Hfinal, Nat.add_0_r.
  split; [lia|].
  intros st0 mid0 [= <- <-]. split; [reflexivity|].
  destruct (is_first_sentence st); cbn [Nat.b2n] in Hcount; split;
    intros; try discriminate; try reflexivity; lia.
Qed.

Lemma step_counters (st st' : state) (c : char) (evs : list event) :
  0 <= word_count st /\ 0 <= tokenization_counter st
  /\ 0 <= chars_since_last_strong_delim st ->
  step B cfg st c = Ok (st', evs) ->
  0 <= word_count st' /\ 0 <= tokenization_counter st'
  /\ 0 <= chars_since_last_strong_delim st'.
Proof.
  intros (H1 & H2 & H3).
  unfold step, first_fragment_logic, lookback, carried, counted_words,
    counted_chars_since. cbv zeta.
  repeat branch_inner; try discriminate; intros [= <- <-];
    cbn [word_count tokenization_counter chars_since_last_strong_delim];
    lia.
Qed.

(** X23. The word count, the tokenization counter and the distance to the
    last strong delimiter are never negative, after any number of
    characters. *)
Theorem counters_never_negative (seen : str) (st : state)
  (evs : list event) :
  run B cfg initial seen = Ok (st, evs) ->
  0 <= word_count st
  /\ 0 <= tokenization_counter st
  /\ 0 <= chars_since_last_strong_delim st.
Proof.
  intros Hrun.
  apply (run_invariant B cfg
           (fun s => 0 <= word_count s /\ 0 <= tokenization_counter s
                     /\ 0 <= chars_since_last_strong_delim s)
           (fun _ => True)) with (chars := seen) (st := initial) (evs := evs);
    [| cbn; lia | exact Hrun].
  intros s c s' e Hs He. split.
  - eapply step_counters; eauto.
  - apply Forall_forall. auto.
Qed.

End LoopMore.

(** ** The further properties on concrete inputs *)

Lemma initialize_nltk_outcome_witness :
  Init.nltk_initialized
    (fst (Init.initialize_nltk (example_library (Ok tt) (Ok period_tokenizer))
            Init.fresh false)) = true.
Proof.
  apply (proj1 (proj2 (initialize_nltk_outcome
                         (example_library (Ok tt) (Ok period_tokenizer))
                         Init.fresh false) eq_refl)).
  split; [exists tt; reflexivity|].
  right. split; [reflexivity | exists tt; reflexivity].
Defined.

Lemma initialize_stanza_outcome_witness :
  Init.nlp
    (fst (Init.initialize_stanza
            (example_library (Ok tt) (Raise RuntimeError)) Init.fresh
            (of_string "ru") false))
  = Init.nlp Init.fresh.
Proof.
  apply (proj1 (proj2 (proj2 (initialize_stanza_outcome
                                (example_library (Ok tt) (Raise RuntimeError))
                                Init.fresh (of_string "ru") false) eq_refl))).
  reflexivity.
Defined.

Lemma fragments_trimmed_witness :
  trimmed (of_string "Hello, world.").
Proof.
  apply (fragments_trimmed (L := basic_latin) no_backend default_config
           [of_string "  Hello, wor"; of_string "ld. Bye "]
           [Yield First (of_string "Hello, world.");
            Tokenize (of_string "Bye ");
            Yield Final (of_string "Bye")]).
  - vm_compute. reflexivity.
  - left. reflexivity.
Defined.

Lemma skipped_stream_is_silent_witness :
  generate_sentences_async (L := basic_latin) no_backend default_config
    [of_string "... "; of_string "?!"] = Ok [].
Proof.
  apply (skipped_stream_is_silent (L := basic_latin) no_backend default_config).
  - reflexivity.
  - repeat constructor.
Defined.

Lemma forced_fragment_size_witness :
  exists raw,
    of_string "ab" = clean (L := basic_latin)
                       (example_config 15 12 4 6 25 true None) raw
    /\ len raw = 4 / 2
    /\ raw ++ of_string "cde" = lstrip (of_string "abcd" ++ [101%N]).
Proof.
  destruct (forced_fragment_size (L := basic_latin) no_backend
              (example_config 15 12 4 6 25 true None)
              (with_buffer (of_string "abcd"))
              {| buffer := of_string "cde"; is_first_sentence := true;
                 word_count := 0; last_delimiter_position := -1;
                 fragment_count := 0; tokenization_counter := 0;
                 chars_since_last_strong_delim := 0 |}
              101%N [Yield Forced (of_string "ab")] (of_string "ab"))
    as (raw & H1 & H2 & H3 & _).
  - discriminate.
  - vm_compute. reflexivity.
  - left. reflexivity.
  - exists raw. auto.
Defined.

Lemma finish_single_sentence_witness :
  finish (L := basic_latin) no_backend default_config
    (with_buffer (of_string "Bye "))
  = Ok [Tokenize (of_string "Bye "); Yield Final (strip (of_string "Bye "))].
Proof.
  apply (proj2 (finish_single_sentence (L := basic_latin) no_backend
                  default_config (with_buffer (of_string "Bye ")))).
  - discriminate.
  - reflexivity.
  - reflexivity.
Defined.

Lemma finish_fragments_witness :
  fragments
    [Tokenize (of_string "First sentence.Second sentence.");
     Yield Final (of_string "First sentence.");
     Yield Final (of_string "Second sentence.")]
  = map (clean (L := basic_latin)
           (example_config 15 12 700 6 25 true (Some period_tokenizer)))
      [of_string "First sentence."; of_string "Second sentence."].
Proof.
  apply (proj2 (finish_fragments (L := basic_latin) no_backend
                  (example_config 15 12 700 6 25 true (Some period_tokenizer))
                  (with_buffer (of_string "First sentence.Second sentence."))
                  [of_string "First sentence."; of_string "Second sentence."]
                  _ ltac:(vm_compute; reflexivity)
                  ltac:(vm_compute; reflexivity))).
  - discriminate.
  - repeat constructor; discriminate.
Defined.

Lemma generate_total_witness :
  exists evs,
    generate_sentences_async (L := basic_latin) no_backend default_config
      [of_string "Hello, world. Bye"] = Ok evs.
Proof.
  apply (generate_total (L := basic_latin) no_backend default_config).
  - discriminate.
  - discriminate.
  - eexists. reflexivity.
  - eexists. reflexivity.
Defined.

Lemma empty_buffer_index_error_witness :
  generate_sentences_async (L := basic_latin) no_backend
    {| context_size := 15; context_size_look_overhead := 8;
       minimum_sentence_length := 12; minimum_first_fragment_length := 0;
       quick_yield_single_sentence_fragment := true;
       quick_yield_for_all_sentences := false;
       quick_yield_every_fragment := false; cleanup_text_emojis := false;
       tokenize_sentences := None; tokenizer := of_string "stanza";
       filter_first_non_alnum_characters := false;
       force_first_fragment_after_words := 15; poetic_mode := false;
       preserve_line_breaks := false; max_buffer_size := 700;
       tokenization_interval := 6; strict_punctuation_mode := true;
       min_chars_after_delimiter := 25;
       sentence_fragment_delimiters :=
         sentence_fragment_delimiters default_config;
       full_sentence_delimiters := full_sentence_delimiters default_config |}
    [SPACE :: of_string "Hello"] = Raise IndexError.
Proof.
  apply (empty_buffer_index_error (L := basic_latin)); try reflexivity;
    discriminate.
Defined.


(** The tokenizer is asked when [C] arrives two characters after the second
    full stop. *)
Lemma tokenizer_called_only_at_boundary_witness :
  exists d,
    py_index (of_string "AAAAAAAAAAAA.BBBBBBBBBBBBBBBBBBBB.C") (- 2) = Ok d
    /\ char_in d (full_sentence_delimiters default_config) = true.
Proof.
  destruct (run (L := basic_latin) no_backend
              (example_config 2 30 700 1 1 false (Some period_tokenizer))
              initial (of_string "AAAAAAAAAAAA.BBBBBBBBBBBBBBBBBBBB."))
    as [[st evs]|] eqn:Hrun; [|vm_compute in Hrun; discriminate Hrun].
  destruct (step (L := basic_latin) no_backend
              (example_config 2 30 700 1 1 false (Some period_tokenizer))
              st 67%N) as [[st' evs']|] eqn:Hstep;
    [|vm_compute in Hrun; injection Hrun as <- _; vm_compute in Hstep;
      discriminate Hstep].
  destruct (tokenizer_called_only_at_boundary (L := basic_latin) no_backend
              (example_config 2 30 700 1 1 false (Some period_tokenizer))
              st st' 67%N evs'
              (of_string "AAAAAAAAAAAA.BBBBBBBBBBBBBBBBBBBB.C") Hstep)
    as (_ & _ & _ & _ & _ & d & Hd & Hdelim & _).
  - vm_compute in Hrun. injection Hrun as <- _. vm_compute in Hstep.
    injection Hstep as _ <-. left. reflexivity.
  - exists d. split; [exact Hd|].
    vm_compute in Hd. injection Hd as <-. reflexivity.
Defined.

Lemma written_only_counters_witness :
  same_result
    (run (L := basic_latin) no_backend default_config
       (with_buffer (of_string "Hello wo")) (of_string "rld. Bye"))
    (run (L := basic_latin) no_backend default_config
       (with_counters (of_string "Hello wo") 5 3 7) (of_string "rld. Bye")).
Proof.
  apply (proj1 (written_only_counters (L := basic_latin) no_backend
                  default_config (with_buffer (of_string "Hello wo"))
                  (with_counters (of_string "Hello wo") 5 3 7)
                  (of_string "rld. Bye")
                  (conj eq_refl (conj eq_refl (conj eq_refl eq_refl))))).
Defined.

Lemma at_most_one_first_fragment_witness :
  (count_first
     [Yield First (of_string "Hello, world.");
      Tokenize (of_string "Bye, bye. And more.");
      Yield Final (of_string "Bye, bye. And more.")] <= 1)%nat.
Proof.
  apply (proj1 (at_most_one_first_fragment (L := basic_latin) no_backend
                  default_config [of_string "Hello, world. Bye, bye. And more."]
                  _ eq_refl ltac:(vm_compute; reflexivity))).
Defined.

Lemma counters_never_negative_witness :
  exists st evs,
    run (L := basic_latin) no_backend default_config initial
      (of_string "Hello, world. Bye") = Ok (st, evs)
    /\ 0 <= word_count st.
Proof.
  destruct (run (L := basic_latin) no_backend default_config initial
              (of_string "Hello, world. Bye"))
    as [[st evs]|] eqn:Hrun; [|vm_compute in Hrun; discriminate Hrun].
  exists st, evs. split; [reflexivity|].
  exact (proj1 (counters_never_negative (L := basic_latin) no_backend
                  default_config _ st evs Hrun)).
Defined.

Lemma poetic_lines_witness :
  exists l,
    _tokenize_sentences no_backend (of_string "stanza")
      (of_string "Roses are red" ++ NEWLINE :: NEWLINE
         :: of_string "Violets are blue") None true true = Ok l
    /\ squash (concat l)
       = squash (of_string "Roses are red" ++ NEWLINE :: NEWLINE
                   :: of_string "Violets are blue").
Proof.
  destruct (poetic_lines no_backend (of_string "stanza")
              (of_string "Roses are red" ++ NEWLINE :: NEWLINE
                 :: of_string "Violets are blue"))
    as (l & H1 & _ & H2 & _).
  exists l. split; [exact H1 | exact H2].
Defined.
